(** * GeneratorUtils: byte/number conversion helpers of the TypeScript generator

    A shallow embedding of [src/generators/typescript/GeneratorUtils.ts].

    - JavaScript numbers that hold integers are modelled by [Z]; the only
      non-integer number the module can produce from integer inputs and byte
      arrays is [NaN], which the type [number] adds.  A binary64 number is
      exact on integers of magnitude below [2^53] and division by a power of
      two is exact, which covers every arithmetic step embedded below.
    - A [Uint8Array] is a view (buffer, byte offset, length) on an
      [ArrayBuffer]; array buffers live in a heap so that in-place updates of
      a caller's array are visible to the caller.
    - A method is a computation [M A]: it takes the heap and gives back an
      outcome (a value or a thrown exception) together with the heap it
      leaves behind. *)

From Stdlib Require Import ZArith Lia String Ascii.
From Stdlib Require Import Strings.Byte.
From stdpp Require Import base list.

Local Open Scope Z_scope.

(** ** Numbers and the 32-bit operators *)

Module Js.

Inductive number : Type :=
| NaN
| Int (z : Z).

(** [ToNumber] of the result of an indexed read: [undefined] gives [NaN]. *)
Definition ToNumber (v : option Z) : number :=
  match v with
  | Some z => Int z
  | None => NaN
  end.

Definition ToUint32 (n : number) : Z :=
  match n with
  | NaN => 0
  | Int z => z mod 2 ^ 32
  end.

Definition ToInt32 (n : number) : Z :=
  let u := ToUint32 n in
  if 2 ^ 31 <=? u then u - 2 ^ 32 else u.

Definition ToUint8 (n : number) : Z :=
  match n with
  | NaN => 0
  | Int z => z mod 2 ^ 8
  end.

Definition ToUint16 (n : number) : Z :=
  match n with
  | NaN => 0
  | Int z => z mod 2 ^ 16
  end.

(** [a + b] on numbers. *)
Definition add (a b : number) : number :=
  match a, b with
  | Int x, Int y => Int (x + y)
  | _, _ => NaN
  end.

(** [a * b] on numbers. *)
Definition mul (a b : number) : number :=
  match a, b with
  | Int x, Int y => Int (x * y)
  | _, _ => NaN
  end.

(** [a <= b]: a comparison with [NaN] is false. *)
Definition le (a b : number) : bool :=
  match a, b with
  | Int x, Int y => x <=? y
  | _, _ => false
  end.

(** [a << n]: both operands go through [ToInt32]/[ToUint32], the shift
    count is taken modulo 32 and the result is wrapped to 32 bits. *)
Definition shl (a n : number) : Z :=
  ToInt32 (Int (Z.shiftl (ToInt32 a) (ToUint32 n mod 32))).

(** [a >> n]: sign-propagating shift of the 32-bit signed operand. *)
Definition sar (a n : number) : Z :=
  Z.shiftr (ToInt32 a) (ToUint32 n mod 32).

(** [a >>> n]: zero-filling shift of the 32-bit unsigned operand. *)
Definition shru (a n : number) : Z :=
  Z.shiftr (ToUint32 a) (ToUint32 n mod 32).

(** [a / b] as a 32-bit operator sees it, for integers [a] and a power of
    two [b].  The operator first drops the fractional part of its operand;
    binary64 holds such a quotient exactly, so the integer it sees is the
    rational [a / b] rounded toward zero. *)
Definition div_pow2 (a b : Z) : number := Int (Z.quot a b).

(** [a - b] on numbers. *)
Definition sub (a b : number) : number :=
  match a, b with
  | Int x, Int y => Int (x - y)
  | _, _ => NaN
  end.

(** [a % b] on integers: the sign of the dividend; [NaN] when [b] is 0. *)
Definition rem (a b : Z) : number :=
  if b =? 0 then NaN else Int (Z.rem a b).

(** [a === b] on numbers: [NaN] equals nothing. *)
Definition strict_eq (a b : number) : bool :=
  match a, b with
  | Int x, Int y => x =? y
  | _, _ => false
  end.

(** [a & b] on 32-bit signed operands. *)
Definition band (a b : number) : Z :=
  Z.land (ToInt32 a) (ToInt32 b).

End Js.

(** ** Bytes *)

Definition byte_val (b : byte) : Z := Z.of_N (Byte.to_N b).

(** The byte a typed array stores for a number: the number modulo 256. *)
Definition byte_of (n : Js.number) : byte :=
  match Byte.of_N (Z.to_N (Js.ToUint8 n)) with
  | Some b => b
  | None => x00
  end.

(** ** Exceptions, outcomes and the heap *)

Inductive exn : Type :=
| RangeError
| SyntaxError
| Error_unexpected_size (len : nat)
    (* `byte array has unexpected size '${input.length}'` *)
| Error_unexpected_bufferSize
    (* 'Unexpected bufferSize' *)
| Error_unexpected_buffer_size
    (* 'Unexpected buffer size' *)
| Error_converting_uint (uintValue : Z) (e : exn)
    (* `Converting uint value ${uintValue} into buffer with error: ${e}` *)
| Error_converting_buffer (e : exn)
    (* `Converting buffer into number with error: ${e}` *)
| Error_out_of_range (input : Z).
    (* `input '${input}' is out of range` *)

Inductive outcome (A : Type) : Type :=
| Ok (a : A)
| Throw (e : exn).
Arguments Ok {A} a.
Arguments Throw {A} e.

(** The heap holds the array buffers; a location is an index in it. *)
Abbreviation loc := nat (only parsing).
Abbreviation heap := (list (list byte)) (only parsing).

Definition M (A : Type) : Type := heap -> outcome A * heap.

Definition ret {A} (a : A) : M A := fun h => (Ok a, h).

Definition throw {A} (e : exn) : M A := fun h => (Throw e, h).

Definition bind {A B} (m : M A) (k : A -> M B) : M B :=
  fun h =>
    match m h with
    | (Ok a, h') => k a h'
    | (Throw e, h') => (Throw e, h')
    end.

(** [try { m } catch (e) { handler e }] *)
Definition try_catch {A} (m : M A) (handler : exn -> M A) : M A :=
  fun h =>
    match m h with
    | (Ok a, h') => (Ok a, h')
    | (Throw e, h') => handler e h'
    end.

Notation "'let*' x ':=' m 'in' k" := (bind m (fun x => k))
  (at level 10, x name, m at level 100, k at level 200).
Notation "'do' m 'then' k" := (bind m (fun _ => k))
  (at level 10, m at level 100, k at level 200).

Definition get_heap : M heap := fun h => (Ok h, h).
Definition put_heap (h' : heap) : M unit := fun _ => (Ok tt, h').

(** ** ArrayBuffer, Uint8Array and DataView *)

Record Uint8Array : Type := mkUint8Array {
  u8_buffer : loc;
  u8_byteOffset : nat;
  u8_length : nat
}.
Arguments mkUint8Array (u8_buffer u8_byteOffset u8_length)%_nat.

Definition buffer_bytes (h : heap) (l : loc) : list byte :=
  default [] (h !! l).

(** The bytes a view shows. *)
Definition view_bytes (h : heap) (a : Uint8Array) : list byte :=
  take (u8_length a) (drop (u8_byteOffset a) (buffer_bytes h (u8_buffer a))).

(** A view lies inside an allocated buffer. *)
Definition wf_view (h : heap) (a : Uint8Array) : Prop :=
  (u8_buffer a < length h)%nat /\
  (u8_byteOffset a + u8_length a <= length (buffer_bytes h (u8_buffer a)))%nat.

(** [new ArrayBuffer(n)]: zero-filled; a negative length is a [RangeError]. *)
Definition new_ArrayBuffer (n : Z) : M loc :=
  fun h =>
    if n <? 0 then (Throw RangeError, h)
    else (Ok (length h), h ++ [replicate (Z.to_nat n) x00]).

(** [new Uint8Array(buffer)]: the view of the whole buffer. *)
Definition new_Uint8Array_on (l : loc) : M Uint8Array :=
  let* h := get_heap in
  ret (mkUint8Array l 0 (length (buffer_bytes h l))).

(** [new Uint8Array(n)]: a view on a fresh zero-filled buffer. *)
Definition new_Uint8Array (n : Z) : M Uint8Array :=
  let* l := new_ArrayBuffer n in
  new_Uint8Array_on l.

(** The element at index [i] of a view, [None] outside [0, length). *)
Definition u8_elem (h : heap) (a : Uint8Array) (i : Z) : option Z :=
  if i <? 0 then None
  else byte_val <$> view_bytes h a !! Z.to_nat i.

(** [a[i]]: the element, or [undefined] ([None]) outside [0, length). *)
Definition u8_get (a : Uint8Array) (i : Z) : M (option Z) :=
  let* h := get_heap in
  ret (u8_elem h a i).

(** [a[i] = v]: stores [v] modulo 256; outside [0, length) nothing happens. *)
Definition u8_set (a : Uint8Array) (i : Z) (v : Js.number) : M unit :=
  let* h := get_heap in
  if (0 <=? i) && (i <? Z.of_nat (u8_length a)) then
    put_heap (<[u8_buffer a :=
                <[(u8_byteOffset a + Z.to_nat i)%nat := byte_of v]>
                  (buffer_bytes h (u8_buffer a))]> h)
  else ret tt.

(** Overwrites the bytes a view shows (as many as the view holds). *)
Definition write_view (a : Uint8Array) (bs : list byte) : M unit :=
  let* h := get_heap in
  let buf := buffer_bytes h (u8_buffer a) in
  put_heap (<[u8_buffer a :=
              take (u8_byteOffset a) buf ++ bs
                ++ drop (u8_byteOffset a + length bs) buf]> h).

(** [a.reverse()]: reverses the elements in place and returns [a] itself. *)
Definition u8_reverse (a : Uint8Array) : M Uint8Array :=
  let* h := get_heap in
  do write_view a (rev (view_bytes h a)) then
  ret a.

(** The elements a [for ... of] loop over [a] visits, in order. *)
Definition u8_values (a : Uint8Array) : M (list Z) :=
  let* h := get_heap in
  ret (byte_val <$> view_bytes h a).

Definition run {A} (m : M A) (h : heap) : outcome A * heap := m h.

(** [target.set(source, offset)]: copies the elements of [source] to
    [target] from [offset] on; a [RangeError] when they do not fit. *)
Definition u8_set_from (target source : Uint8Array) (offset : nat) : M unit :=
  if (u8_length target <? u8_length source + offset)%nat then throw RangeError
  else
    let* h := get_heap in
    write_view
      (mkUint8Array (u8_buffer target) (u8_byteOffset target + offset)
         (u8_length source))
      (view_bytes h source).

(** [a.slice(start, end)]: a new array on a buffer of its own holding a copy
    of the elements; negative positions count from the end. *)
Definition u8_slice (a : Uint8Array) (start final : Z) : M Uint8Array :=
  let len := Z.of_nat (u8_length a) in
  let k := if start <? 0 then Z.max (len + start) 0 else Z.min start len in
  let e := if final <? 0 then Z.max (len + final) 0 else Z.min final len in
  let count := Z.max (e - k) 0 in
  let* h := get_heap in
  let* copy := new_Uint8Array count in
  do write_view copy
       (take (Z.to_nat count) (drop (Z.to_nat k) (view_bytes h a))) then
  ret copy.

(** A [DataView] on a whole buffer, as [new DataView(buffer)] makes it. *)
Record DataView : Type := mkDataView {
  dv_buffer : loc;
  dv_byteLength : nat
}.

Definition new_DataView (l : loc) : M DataView :=
  let* h := get_heap in
  ret (mkDataView l (length (buffer_bytes h l))).

(** The [size] low bytes of [v], least significant first. *)
Fixpoint raw_bytes (size : nat) (v : Z) : list byte :=
  match size with
  | O => []
  | S n => byte_of (Js.Int v) :: raw_bytes n (v / 256)
  end.

(** The number a list of bytes holds, least significant first. *)
Fixpoint raw_value (bs : list byte) : Z :=
  match bs with
  | [] => 0
  | b :: bs' => byte_val b + 256 * raw_value bs'
  end.

(** [SetViewValue]: a [RangeError] unless the [size] bytes at [byteOffset]
    lie inside the view. *)
Definition DataView_set (size : nat) (dv : DataView) (byteOffset : Z)
    (v : Z) (littleEndian : bool) : M unit :=
  if (byteOffset <? 0)
     || (Z.of_nat (dv_byteLength dv) <? byteOffset + Z.of_nat size)
  then throw RangeError
  else
    let raw := raw_bytes size v in
    write_view (mkUint8Array (dv_buffer dv) (Z.to_nat byteOffset) size)
      (if littleEndian then raw else rev raw).

(** [GetViewValue], with the same bounds check. *)
Definition DataView_get (size : nat) (dv : DataView) (byteOffset : Z)
    (littleEndian : bool) : M Z :=
  if (byteOffset <? 0)
     || (Z.of_nat (dv_byteLength dv) <? byteOffset + Z.of_nat size)
  then throw RangeError
  else
    let* h := get_heap in
    let raw :=
      view_bytes h (mkUint8Array (dv_buffer dv) (Z.to_nat byteOffset) size) in
    ret (raw_value (if littleEndian then raw else rev raw)).

Definition setUint8 (dv : DataView) (byteOffset : Z) (v : Js.number) : M unit :=
  DataView_set 1 dv byteOffset (Js.ToUint8 v) false.
Definition setUint16 (dv : DataView) (byteOffset : Z) (v : Js.number)
    (littleEndian : bool) : M unit :=
  DataView_set 2 dv byteOffset (Js.ToUint16 v) littleEndian.
Definition setUint32 (dv : DataView) (byteOffset : Z) (v : Js.number)
    (littleEndian : bool) : M unit :=
  DataView_set 4 dv byteOffset (Js.ToUint32 v) littleEndian.

Definition getUint8 (dv : DataView) (byteOffset : Z) : M Z :=
  DataView_get 1 dv byteOffset false.
Definition getUint16 (dv : DataView) (byteOffset : Z) (littleEndian : bool)
  : M Z := DataView_get 2 dv byteOffset littleEndian.
Definition getUint32 (dv : DataView) (byteOffset : Z) (littleEndian : bool)
  : M Z := DataView_get 4 dv byteOffset littleEndian.

(** ** Strings, [BigInt(string)], [toString(16)], [padStart], [parseInt] *)

(** The value of a character as a digit: [0-9], then [a-z] or [A-Z] from 10. *)
Definition digit_value (c : ascii) : option Z :=
  let n := Z.of_nat (nat_of_ascii c) in
  if (48 <=? n) && (n <=? 57) then Some (n - 48)
  else if (97 <=? n) && (n <=? 122) then Some (n - 87)
  else if (65 <=? n) && (n <=? 90) then Some (n - 55)
  else None.

(** Reads a whole string of digits of the radix, most significant first. *)
Fixpoint parse_digits (radix : Z) (s : string) (acc : Z) : option Z :=
  match s with
  | EmptyString => Some acc
  | String c s' =>
      match digit_value c with
      | Some d => if d <? radix then parse_digits radix s' (acc * radix + d)
                  else None
      | None => None
      end
  end.

Definition parse_nonempty (radix : Z) (s : string) : option Z :=
  match s with
  | EmptyString => None
  | _ => parse_digits radix s 0
  end.

(** [StringToBigInt]: the empty string is 0; [0x], [0o], [0b] (either case)
    introduce hexadecimal, octal and binary digits; anything else is a
    decimal literal with an optional sign.  [None] is the syntax error.
    (White space around the literal is not modelled: the strings built in
    this module hold none.) *)
Definition StringToBigInt (s : string) : option Z :=
  match s with
  | EmptyString => Some 0
  | String "0" (String ("x" | "X") rest) => parse_nonempty 16 rest
  | String "0" (String ("o" | "O") rest) => parse_nonempty 8 rest
  | String "0" (String ("b" | "B") rest) => parse_nonempty 2 rest
  | String "+" rest => parse_nonempty 10 rest
  | String "-" rest => Z.opp <$> parse_nonempty 10 rest
  | _ => parse_digits 10 s 0
  end%char.

(** [BigInt(s)] for a string argument. *)
Definition BigInt (s : string) : M Z :=
  match StringToBigInt s with
  | Some z => ret z
  | None => throw SyntaxError
  end.

(** The digit characters [toString(16)] writes. *)
Definition hex_digit (d : Z) : ascii :=
  if d <? 10 then ascii_of_nat (Z.to_nat (48 + d))
  else ascii_of_nat (Z.to_nat (87 + d)).

(** The hexadecimal digits of [n >= 0], most significant first, in front of
    [acc]; [fuel] bounds the number of digits after the first. *)
Fixpoint to_hex_aux (fuel : nat) (n : Z) (acc : string) : string :=
  let acc' := String (hex_digit (n mod 16)) acc in
  match fuel with
  | O => acc'
  | S fuel' => if n / 16 =? 0 then acc' else to_hex_aux fuel' (n / 16) acc'
  end.

(** [input.toString(16)] on a BigInt. *)
Definition BigInt_toString16 (z : Z) : string :=
  if z <? 0 then String "-" (to_hex_aux (Z.to_nat (Z.log2 (- z))) (- z) EmptyString)
  else to_hex_aux (Z.to_nat (Z.log2 z)) z EmptyString.

Fixpoint string_repeat (c : ascii) (n : nat) : string :=
  match n with
  | O => EmptyString
  | S n' => String c (string_repeat c n')
  end.

(** [s.padStart(n, c)] for a one-character filler. *)
Definition padStart (n : nat) (c : ascii) (s : string) : string :=
  (string_repeat c (n - String.length s) ++ s)%string.

(** [s.slice(j, j + 2)] for [0 <= j]. *)
Definition slice2 (s : string) (j : nat) : string := substring j 2 s.

(** The longest prefix of digits of the radix, read most significant first;
    [None] when the prefix is empty. *)
Fixpoint parse_prefix (radix : Z) (s : string) (acc : option Z) : option Z :=
  match s with
  | EmptyString => acc
  | String c s' =>
      match digit_value c with
      | Some d => if d <? radix
                  then parse_prefix radix s' (Some (default 0 acc * radix + d))
                  else acc
      | None => acc
      end
  end.

(** [parseInt(s, 16)]: an optional sign, an optional [0x] and the longest
    prefix of hexadecimal digits; [NaN] when there is no digit.  (Leading
    white space is not modelled, as above.) *)
Definition parseInt16 (s : string) : Js.number :=
  let strip0x (t : string) :=
    match t with
    | String "0" (String ("x" | "X") rest) => rest
    | _ => t
    end%char in
  match s with
  | String "-" rest => Js.ToNumber (Z.opp <$> parse_prefix 16 (strip0x rest) None)
  | String "+" rest => Js.ToNumber (parse_prefix 16 (strip0x rest) None)
  | _ => Js.ToNumber (parse_prefix 16 (strip0x s) None)
  end%char.

(** ** The methods of [GeneratorUtils] *)

Definition Nibble_To_Char_Map : list string :=
  ["0"; "1"; "2"; "3"; "4"; "5"; "6"; "7";
   "8"; "9"; "A"; "B"; "C"; "D"; "E"; "F"]%string.

(** [map[i]] converted to a string, as [s += map[i]] does. *)
Definition char_at (map : list string) (i : Z) : string :=
  if i <? 0 then "undefined"%string
  else default "undefined"%string (map !! Z.to_nat i).

(** The body of [for (const byte of input)]. *)
Definition append_nibbles (s : string) (byte : Z) : string :=
  let s :=
    (s ++ char_at Nibble_To_Char_Map (Js.sar (Js.Int byte) (Js.Int 4)))%string in
  (s ++ char_at Nibble_To_Char_Map (Js.band (Js.Int byte) (Js.Int 0x0F)))%string.

Definition bufferToBigInt (input : Uint8Array) : M Z :=
  if negb (8 =? u8_length input)%nat then
    throw (Error_unexpected_size (u8_length input))
  else
    let* input := u8_reverse input in
    let* bytes := u8_values input in
    let s := fold_left append_nibbles bytes EmptyString in
    BigInt s.

Definition readUint32At (bytes : Uint8Array) (index : Z) : M Z :=
  let* b0 := u8_get bytes index in
  let* b1 := u8_get bytes (index + 1) in
  let* b2 := u8_get bytes (index + 2) in
  let* b3 := u8_get bytes (index + 3) in
  ret (Js.shru
         (Js.add
            (Js.add
               (Js.add (Js.ToNumber b0)
                  (Js.Int (Js.shl (Js.ToNumber b1) (Js.Int 8))))
               (Js.Int (Js.shl (Js.ToNumber b2) (Js.Int 16))))
            (Js.Int (Js.shl (Js.ToNumber b3) (Js.Int 24))))
         (Js.Int 0)).

Definition uintToBuffer (uintValue bufferSize : Z) : M Uint8Array :=
  let* buffer := new_ArrayBuffer bufferSize in
  let* dataView := new_DataView buffer in
  try_catch
    (do (if 1 =? bufferSize then
           setUint8 dataView 0 (Js.Int uintValue)
         else if 2 =? bufferSize then
           setUint16 dataView 0 (Js.Int uintValue) true
         else if 4 =? bufferSize then
           setUint32 dataView 0 (Js.Int uintValue) true
         else throw Error_unexpected_bufferSize) then
     new_Uint8Array_on buffer)
    (fun e => throw (Error_converting_uint uintValue e)).

Definition bufferToUint (buffer : Uint8Array) : M Z :=
  let* dataView := new_DataView (u8_buffer buffer) in
  try_catch
    (if (1 =? u8_length buffer)%nat then getUint8 dataView 0
     else if (2 =? u8_length buffer)%nat then getUint16 dataView 0 true
     else if (4 =? u8_length buffer)%nat then getUint32 dataView 0 true
     else throw Error_unexpected_buffer_size)
    (fun e => throw (Error_converting_buffer e)).

(** The body of [while (i < len)], run [n] more times. *)
Fixpoint bigIntToBuffer_loop (n : nat) (hex : string) (uint8 : Uint8Array)
    (i j : nat) : M unit :=
  match n with
  | O => ret tt
  | S n' =>
      do u8_set uint8 (Z.of_nat i) (parseInt16 (slice2 hex j)) then
      bigIntToBuffer_loop n' hex uint8 (i + 1) (j + 2)
  end.

(** [len = hex.length / 2] is a half-integer when the length is odd: the
    array gets its integer part and the loop runs for every [i < len],
    that is [(hex.length + 1) / 2] times. *)
Definition bigIntToBuffer (input : Z) : M Uint8Array :=
  let hex := padStart 16 "0" (BigInt_toString16 input) in
  let* uint8 := new_Uint8Array (Z.of_nat (String.length hex / 2)) in
  do bigIntToBuffer_loop ((String.length hex + 1) / 2) hex uint8 0 0 then
  ret uint8.

Definition concatTypedArrays (array1 array2 : Uint8Array) : M Uint8Array :=
  let* newArray :=
    new_Uint8Array (Z.of_nat (u8_length array1 + u8_length array2)) in
  do u8_set_from newArray array1 0 then
  do u8_set_from newArray array2 (u8_length array1) then
  ret newArray.

Definition uint8ToInt8 (input : Z) : M Z :=
  if 0xFF <? input then throw (Error_out_of_range input)
  else ret (Js.sar (Js.Int (Js.shl (Js.Int input) (Js.Int 24))) (Js.Int 24)).

Definition getBytes (binary : Uint8Array) (size : Z) : M Uint8Array :=
  if Z.of_nat (u8_length binary) <? size then throw RangeError
  else
    let* bytes := u8_slice binary 0 size in
    ret bytes.

Definition getTransactionPaddingSize (size alignment : Z) : Js.number :=
  if Js.strict_eq (Js.Int 0) (Js.rem size alignment) then Js.Int 0
  else Js.sub (Js.Int alignment) (Js.rem size alignment).

(** What [compact] returns: a number, or the array it was given. *)
Inductive compacted : Type :=
| Numeric (n : Js.number)
| Uint64 (uint64 : list Z).

Definition compact (uint64 : list Z) : compacted :=
  let low := Js.ToNumber (uint64 !! 0%nat) in
  let high := Js.ToNumber (uint64 !! 1%nat) in
  if Js.le (Js.Int 0x00200000) high then Uint64 uint64
  else Numeric (Js.add (Js.mul high (Js.Int 0x100000000)) low).

Definition fromUint (number : Z) : list Z :=
  let value :=
    [Js.shru (Js.Int (Js.band (Js.Int number) (Js.Int 0xFFFFFFFF))) (Js.Int 0);
     Js.shru (Js.div_pow2 number 0x100000000) (Js.Int 0)] in
  value.

(** ** Functions used to state the properties *)

(** The two lower-case hexadecimal digits of a byte, high nibble first. *)
Definition hex_pair (b : byte) : string :=
  String (hex_digit (byte_val b / 16))
    (String (hex_digit (byte_val b mod 16)) EmptyString).

(** The digits of a sequence of bytes, two per byte, in order. *)
Fixpoint hex_of_bytes (bs : list byte) : string :=
  match bs with
  | [] => EmptyString
  | b :: bs' => (hex_pair b ++ hex_of_bytes bs')%string
  end.

(** The [k] low hexadecimal digits of [n], most significant first. *)
Fixpoint fixed_hex (k : nat) (n : Z) : string :=
  match k with
  | O => EmptyString
  | S k' =>
      (fixed_hex k' (n / 16) ++ String (hex_digit (n mod 16)) EmptyString)%string
  end.

(** The number a list of bytes holds, most significant first, on top of
    [acc]. *)
Definition big_endian_value (bs : list byte) (acc : Z) : Z :=
  fold_left (fun a b => a * 256 + byte_val b) bs acc.

(** Both nibbles of a byte are digits of the radix. *)
Definition nibbles_below (radix : Z) (b : byte) : bool :=
  (byte_val b / 16 <? radix) && (byte_val b mod 16 <? radix).

(** The number whose digits in the radix are the nibbles of the bytes,
    most significant first, on top of [acc]. *)
Definition nibbles_value (radix : Z) (bs : list byte) (acc : Z) : Z :=
  fold_left
    (fun a b => (a * radix + byte_val b / 16) * radix + byte_val b mod 16)
    bs acc.

(** * Properties *)

(** ** The 32-bit conversions *)

Lemma ToUint32_range (n : Js.number) : 0 <= Js.ToUint32 n < 2 ^ 32.
Proof.
  destruct n as [|z]; simpl; [lia|].
  apply Z.mod_pos_bound; lia.
Qed.

Lemma ToUint32_small (z : Z) :
  0 <= z < 2 ^ 32 -> Js.ToUint32 (Js.Int z) = z.
Proof. intros Hz; simpl. apply Z.mod_small; lia. Qed.

(** [ToInt32] is the representative of the class modulo [2^32] that lies
    in [[-2^31, 2^31)]. *)
Lemma ToInt32_centered (z : Z) :
  Js.ToInt32 (Js.Int z) = (z + 2 ^ 31) mod 2 ^ 32 - 2 ^ 31.
Proof.
  unfold Js.ToInt32, Js.ToUint32.
  change (2 ^ 32) with 4294967296. change (2 ^ 31) with 2147483648.
  destruct (Z.leb_spec 2147483648 (z mod 4294967296));
    Z.div_mod_to_equations; lia.
Qed.

Lemma ToInt32_small (z : Z) :
  - 2 ^ 31 <= z < 2 ^ 31 -> Js.ToInt32 (Js.Int z) = z.
Proof.
  intros Hz. rewrite ToInt32_centered.
  change (2 ^ 32) with 4294967296 in *. change (2 ^ 31) with 2147483648 in *.
  Z.div_mod_to_equations; lia.
Qed.

Lemma shl_NaN (k : Z) : Js.shl Js.NaN (Js.Int k) = 0.
Proof.
  unfold Js.shl. change (Js.ToInt32 Js.NaN) with 0.
  rewrite Z.shiftl_0_l. reflexivity.
Qed.

(** ** [uint8ToInt8] *)

Lemma uint8ToInt8_value (v : Z) :
  Js.sar (Js.Int (Js.shl (Js.Int v) (Js.Int 24))) (Js.Int 24)
  = (v + 128) mod 256 - 128.
Proof.
  unfold Js.sar, Js.shl.
  change (Js.ToUint32 (Js.Int 24) mod 32) with 24.
  rewrite !ToInt32_centered, Z.shiftl_mul_pow2, Z.shiftr_div_pow2 by lia.
  change (2 ^ 32) with 4294967296. change (2 ^ 31) with 2147483648.
  change (2 ^ 24) with 16777216.
  Z.div_mod_to_equations; lia.
Qed.

(** C5, as the code has it: the guard rejects only inputs above [0xFF]; on
    [[0, 255]] the result is the two's-complement reading of the byte; a
    negative input is not rejected and yields the signed reading of its low
    eight bits. *)
Theorem uint8ToInt8_guard_and_value (v : Z) (h : heap) :
  (255 < v -> run (uint8ToInt8 v) h = (Throw (Error_out_of_range v), h)) /\
  (0 <= v <= 255 ->
   run (uint8ToInt8 v) h = (Ok (if v <=? 127 then v else v - 256), h)) /\
  (v < 0 -> run (uint8ToInt8 v) h = (Ok ((v + 128) mod 256 - 128), h)).
Proof.
  unfold run, uint8ToInt8, throw, ret.
  rewrite uint8ToInt8_value.
  change 0xFF with 255.
  destruct (Z.ltb_spec 255 v) as [Hgt|Hle]; repeat split; intros Hv;
    try lia; try reflexivity.
  do 2 f_equal.
  destruct (Z.leb_spec v 127); Z.div_mod_to_equations; lia.
Qed.

Lemma uint8ToInt8_guard_and_value_witness :
  run (uint8ToInt8 0x80) [] = (Ok (-128), []).
Proof.
  apply (proj1 (proj2 (uint8ToInt8_guard_and_value 0x80 []))). lia.
Defined.

(** C5, counterexample: the negative input [-1] is not rejected. *)
Lemma uint8ToInt8_negative_not_rejected :
  run (uint8ToInt8 (-1)) [] = (Ok (-1), []).
Proof. reflexivity. Qed.

Example uint8ToInt8_examples :
  run (uint8ToInt8 0xFF) [] = (Ok (-1), []) /\
  run (uint8ToInt8 0x80) [] = (Ok (-128), []) /\
  run (uint8ToInt8 0x7F) [] = (Ok 127, []).
Proof. repeat split. Qed.

(** ** Views *)

Lemma byte_val_range (b : byte) : 0 <= byte_val b < 256.
Proof.
  unfold byte_val. pose proof (Byte.to_N_bounded b). lia.
Qed.

Lemma length_view_bytes (h : heap) (a : Uint8Array) :
  wf_view h a -> length (view_bytes h a) = u8_length a.
Proof.
  intros [_ Hlen]. unfold view_bytes.
  rewrite length_take, length_drop. lia.
Qed.

Lemma u8_elem_range (h : heap) (a : Uint8Array) (i b : Z) :
  u8_elem h a i = Some b -> 0 <= b < 256.
Proof.
  unfold u8_elem. destruct (i <? 0); [discriminate|].
  destruct (view_bytes h a !! Z.to_nat i) as [x|]; simpl; [|discriminate].
  intros [= <-]. apply byte_val_range.
Qed.

Lemma u8_elem_outside (h : heap) (a : Uint8Array) (i : Z) :
  wf_view h a -> Z.of_nat (u8_length a) <= i -> u8_elem h a i = None.
Proof.
  intros Hwf Hi. unfold u8_elem.
  destruct (i <? 0); [reflexivity|].
  rewrite (proj2 (lookup_ge_None _ _)); [reflexivity|].
  rewrite length_view_bytes by assumption. lia.
Qed.

Lemma u8_elem_inside (h : heap) (a : Uint8Array) (i : Z) :
  wf_view h a -> 0 <= i < Z.of_nat (u8_length a) ->
  exists b : byte,
    view_bytes h a !! Z.to_nat i = Some b /\ u8_elem h a i = Some (byte_val b).
Proof.
  intros Hwf Hi. unfold u8_elem.
  destruct (Z.ltb_spec i 0); [lia|].
  destruct (lookup_lt_is_Some_2 (view_bytes h a) (Z.to_nat i)) as [b Hb].
  { rewrite length_view_bytes by assumption. lia. }
  exists b. rewrite Hb. split; reflexivity.
Qed.

(** ** [readUint32At] *)

(** The value of the expression [(b0 + (b1 << 8) + (b2 << 16) + (b3 << 24)) >>> 0]
    when the first byte is there: absent bytes count as 0. *)
Lemma read32_value (b0 : Z) (o1 o2 o3 : option Z) :
  0 <= b0 < 256 ->
  (forall b, o1 = Some b -> 0 <= b < 256) ->
  (forall b, o2 = Some b -> 0 <= b < 256) ->
  (forall b, o3 = Some b -> 0 <= b < 256) ->
  Js.shru
    (Js.add
       (Js.add
          (Js.add (Js.Int b0) (Js.Int (Js.shl (Js.ToNumber o1) (Js.Int 8))))
          (Js.Int (Js.shl (Js.ToNumber o2) (Js.Int 16))))
       (Js.Int (Js.shl (Js.ToNumber o3) (Js.Int 24))))
    (Js.Int 0)
  = b0 + default 0 o1 * 2 ^ 8 + default 0 o2 * 2 ^ 16 + default 0 o3 * 2 ^ 24.
Proof.
  intros H0 H1 H2 H3.
  assert (Hshl : forall o k, 0 <= k <= 24 ->
            (forall b, o = Some b -> 0 <= b < 256) ->
            Js.shl (Js.ToNumber o) (Js.Int k)
            = (default 0 o * 2 ^ k + 2 ^ 31) mod 2 ^ 32 - 2 ^ 31).
  { intros [b|] k Hk Hb; simpl Js.ToNumber; simpl default.
    - specialize (Hb b eq_refl). unfold Js.shl.
      rewrite (ToInt32_small b) by lia.
      rewrite ToUint32_small by lia.
      rewrite (Z.mod_small k 32) by lia.
      rewrite Z.shiftl_mul_pow2 by lia. apply ToInt32_centered.
    - rewrite shl_NaN. reflexivity. }
  rewrite !Hshl by (assumption || lia).
  unfold Js.add, Js.shru.
  change (Js.ToUint32 (Js.Int 0) mod 32) with 0. rewrite Z.shiftr_0_r.
  unfold Js.ToUint32.
  assert (R1 : 0 <= default 0 o1 < 256)
    by (destruct o1; simpl; [apply H1; reflexivity | lia]).
  assert (R2 : 0 <= default 0 o2 < 256)
    by (destruct o2; simpl; [apply H2; reflexivity | lia]).
  assert (R3 : 0 <= default 0 o3 < 256)
    by (destruct o3; simpl; [apply H3; reflexivity | lia]).
  change (2 ^ 32) with 4294967296. change (2 ^ 31) with 2147483648.
  change (2 ^ 24) with 16777216. change (2 ^ 16) with 65536.
  change (2 ^ 8) with 256.
  Z.div_mod_to_equations; lia.
Qed.

(** [readUint32At] never throws and leaves the heap as it is: when
    [bytes[index]] is absent the sum is [NaN] and [>>> 0] makes it 0. *)
Lemma readUint32At_total (h : heap) (bytes : Uint8Array) (index : Z) :
  run (readUint32At bytes index) h =
  (Ok match u8_elem h bytes index with
      | None => 0
      | Some b0 =>
          b0 + default 0 (u8_elem h bytes (index + 1)) * 2 ^ 8
          + default 0 (u8_elem h bytes (index + 2)) * 2 ^ 16
          + default 0 (u8_elem h bytes (index + 3)) * 2 ^ 24
      end, h).
Proof.
  unfold run, readUint32At, u8_get, bind, get_heap, ret.
  f_equal. f_equal.
  destruct (u8_elem h bytes index) as [b0|] eqn:E0.
  - apply read32_value; eauto using u8_elem_range.
  - reflexivity.
Qed.

(** C7: inside the array, [readUint32At] returns the little-endian value of
    the four bytes at the offset, a number of [[0, 2^32 - 1]]; it returns 1
    on [01 00 00 00] and 4294967295 on [FF FF FF FF]. *)
Theorem readUint32At_little_endian :
  (forall (h : heap) (bytes : Uint8Array) (offset : Z),
     wf_view h bytes ->
     0 <= offset -> offset + 4 <= Z.of_nat (u8_length bytes) ->
     exists b0 b1 b2 b3 : byte,
       view_bytes h bytes !! Z.to_nat offset = Some b0 /\
       view_bytes h bytes !! Z.to_nat (offset + 1) = Some b1 /\
       view_bytes h bytes !! Z.to_nat (offset + 2) = Some b2 /\
       view_bytes h bytes !! Z.to_nat (offset + 3) = Some b3 /\
       run (readUint32At bytes offset) h =
         (Ok (byte_val b0 + byte_val b1 * 2 ^ 8 + byte_val b2 * 2 ^ 16
              + byte_val b3 * 2 ^ 24), h) /\
       0 <= byte_val b0 + byte_val b1 * 2 ^ 8 + byte_val b2 * 2 ^ 16
            + byte_val b3 * 2 ^ 24 <= 2 ^ 32 - 1) /\
  run (readUint32At (mkUint8Array 0 0 4) 0) [[x01; x00; x00; x00]]
    = (Ok 1, [[x01; x00; x00; x00]]) /\
  run (readUint32At (mkUint8Array 0 0 4) 0) [[xff; xff; xff; xff]]
    = (Ok 4294967295, [[xff; xff; xff; xff]]).
Proof.
  split; [|split; reflexivity].
  intros h bytes offset Hwf Hlo Hhi.
  destruct (u8_elem_inside h bytes offset Hwf) as (b0 & L0 & E0); [lia|].
  destruct (u8_elem_inside h bytes (offset + 1) Hwf) as (b1 & L1 & E1); [lia|].
  destruct (u8_elem_inside h bytes (offset + 2) Hwf) as (b2 & L2 & E2); [lia|].
  destruct (u8_elem_inside h bytes (offset + 3) Hwf) as (b3 & L3 & E3); [lia|].
  exists b0, b1, b2, b3. repeat (split; [assumption|]).
  rewrite readUint32At_total, E0, E1, E2, E3. simpl default.
  split; [reflexivity|].
  pose proof (byte_val_range b0). pose proof (byte_val_range b1).
  pose proof (byte_val_range b2). pose proof (byte_val_range b3).
  change (2 ^ 32) with 4294967296. change (2 ^ 24) with 16777216.
  change (2 ^ 16) with 65536. change (2 ^ 8) with 256. lia.
Qed.

Lemma readUint32At_little_endian_witness :
  exists b0 b1 b2 b3 : byte,
    view_bytes [[x00; x78; x56; x34; x92]] (mkUint8Array 0 0 5) !! Z.to_nat 1
      = Some b0 /\
    view_bytes [[x00; x78; x56; x34; x92]] (mkUint8Array 0 0 5)
      !! Z.to_nat (1 + 1) = Some b1 /\
    view_bytes [[x00; x78; x56; x34; x92]] (mkUint8Array 0 0 5)
      !! Z.to_nat (1 + 2) = Some b2 /\
    view_bytes [[x00; x78; x56; x34; x92]] (mkUint8Array 0 0 5)
      !! Z.to_nat (1 + 3) = Some b3 /\
    run (readUint32At (mkUint8Array 0 0 5) 1) [[x00; x78; x56; x34; x92]] =
      (Ok (byte_val b0 + byte_val b1 * 2 ^ 8 + byte_val b2 * 2 ^ 16
           + byte_val b3 * 2 ^ 24), [[x00; x78; x56; x34; x92]]) /\
    0 <= byte_val b0 + byte_val b1 * 2 ^ 8 + byte_val b2 * 2 ^ 16
         + byte_val b3 * 2 ^ 24 <= 2 ^ 32 - 1.
Proof.
  apply (proj1 readUint32At_little_endian
           [[x00; x78; x56; x34; x92]] (mkUint8Array 0 0 5) 1).
  - split; simpl; lia.
  - lia.
  - simpl; lia.
Defined.

(** C4, as the code has it: past the end of the array [readUint32At] does
    not fail.  The last of the four bytes is absent; the call returns 0 when
    the first byte is absent too, and otherwise the little-endian value of
    the bytes that are there, the absent ones counting as 0.  The heap is
    left as it was. *)
Theorem readUint32At_past_end (h : heap) (bytes : Uint8Array) (offset : Z) :
  wf_view h bytes ->
  Z.of_nat (u8_length bytes) < offset + 4 ->
  u8_elem h bytes (offset + 3) = None /\
  run (readUint32At bytes offset) h =
    (Ok match u8_elem h bytes offset with
        | None => 0
        | Some b0 =>
            b0 + default 0 (u8_elem h bytes (offset + 1)) * 2 ^ 8
            + default 0 (u8_elem h bytes (offset + 2)) * 2 ^ 16
        end, h).
Proof.
  intros Hwf Hout.
  assert (E3 : u8_elem h bytes (offset + 3) = None)
    by (apply u8_elem_outside; [assumption | lia]).
  split; [assumption|].
  rewrite readUint32At_total, E3. simpl default.
  destruct (u8_elem h bytes offset); [|reflexivity].
  do 2 f_equal. lia.
Qed.

Lemma readUint32At_past_end_witness :
  u8_elem [[x01; x02; x03]] (mkUint8Array 0 0 3) (0 + 3) = None /\
  run (readUint32At (mkUint8Array 0 0 3) 0) [[x01; x02; x03]] =
    (Ok match u8_elem [[x01; x02; x03]] (mkUint8Array 0 0 3) 0 with
        | None => 0
        | Some b0 =>
            b0 + default 0 (u8_elem [[x01; x02; x03]] (mkUint8Array 0 0 3)
                              (0 + 1)) * 2 ^ 8
            + default 0 (u8_elem [[x01; x02; x03]] (mkUint8Array 0 0 3)
                           (0 + 2)) * 2 ^ 16
        end, [[x01; x02; x03]]).
Proof.
  apply (readUint32At_past_end [[x01; x02; x03]] (mkUint8Array 0 0 3) 0).
  - split; simpl; lia.
  - simpl; lia.
Defined.

(** C4, counterexample: on the three bytes [01 02 03] at offset 0, where
    [offset + 4] exceeds the length, the call returns 197121 and does not
    throw. *)
Lemma readUint32At_past_end_returns :
  run (readUint32At (mkUint8Array 0 0 3) 0) [[x01; x02; x03]]
  = (Ok 197121, [[x01; x02; x03]]).
Proof. reflexivity. Qed.

(** ** [compact] and [fromUint] *)

(** C8: on limbs below [2^32], [compact] returns the number
    [high * 2^32 + low] when [high < 0x00200000] and otherwise the pair it
    was given; [compact([5, 0])] is 5 and [compact([0, 0x00200000])] is the
    pair. *)
Theorem compact_limb_pair :
  (forall low high : Z,
     0 <= low < 2 ^ 32 -> 0 <= high < 2 ^ 32 ->
     compact [low; high] =
       if high <? 0x00200000 then Numeric (Js.Int (high * 2 ^ 32 + low))
       else Uint64 [low; high]) /\
  compact [5; 0] = Numeric (Js.Int 5) /\
  compact [0; 0x00200000] = Uint64 [0; 0x00200000].
Proof.
  split; [|split; reflexivity].
  intros low high Hlow Hhigh. unfold compact. simpl.
  destruct (Z.leb_spec 2097152 high), (Z.ltb_spec high 2097152);
    try lia; reflexivity.
Qed.

Lemma compact_limb_pair_witness :
  compact [7; 3] =
    if 3 <? 0x00200000 then Numeric (Js.Int (3 * 2 ^ 32 + 7))
    else Uint64 [7; 3].
Proof.
  apply (proj1 compact_limb_pair 7 3); lia.
Defined.

Lemma band_all_ones (z : Z) :
  Js.band (Js.Int z) (Js.Int 0xFFFFFFFF) = Js.ToInt32 (Js.Int z).
Proof.
  unfold Js.band.
  change (Js.ToInt32 (Js.Int 0xFFFFFFFF)) with (-1).
  apply Z.land_m1_r.
Qed.

(** C9: for [0 <= v <= 2^53 - 1], [fromUint] returns
    [[v mod 2^32, v / 2^32]] and [compact] gives [v] back. *)
Theorem fromUint_limbs_and_compact (v : Z) :
  0 <= v <= 2 ^ 53 - 1 ->
  fromUint v = [v mod 2 ^ 32; v / 2 ^ 32] /\
  compact (fromUint v) = Numeric (Js.Int v).
Proof.
  intros Hv.
  assert (Hlimbs : fromUint v = [v mod 2 ^ 32; v / 2 ^ 32]).
  { unfold fromUint. rewrite band_all_ones. unfold Js.shru, Js.div_pow2.
    change (Js.ToUint32 (Js.Int 0) mod 32) with 0. rewrite !Z.shiftr_0_r.
    rewrite ToInt32_centered. unfold Js.ToUint32.
    rewrite Z.quot_div_nonneg by lia.
    change 0x100000000 with 4294967296.
    change (2 ^ 53) with 9007199254740992 in Hv.
    change (2 ^ 32) with 4294967296. change (2 ^ 31) with 2147483648.
    f_equal; [|f_equal]; Z.div_mod_to_equations; lia. }
  split; [assumption|].
  rewrite Hlimbs. unfold compact. simpl.
  change (2 ^ 53) with 9007199254740992 in Hv.
  change (2 ^ 32) with 4294967296.
  destruct (Z.leb_spec 2097152 (v / 4294967296)).
  - Z.div_mod_to_equations; lia.
  - do 2 f_equal. Z.div_mod_to_equations; lia.
Qed.

Lemma fromUint_limbs_and_compact_witness :
  fromUint (2 ^ 53 - 1) = [(2 ^ 53 - 1) mod 2 ^ 32; (2 ^ 53 - 1) / 2 ^ 32] /\
  compact (fromUint (2 ^ 53 - 1)) = Numeric (Js.Int (2 ^ 53 - 1)).
Proof.
  apply (fromUint_limbs_and_compact (2 ^ 53 - 1)). lia.
Defined.

(** ** Running computations, fresh buffers *)

Lemma run_bind {A B} (m : M A) (k : A -> M B) (h : heap) :
  run (bind m k) h =
    match run m h with
    | (Ok a, h') => run (k a) h'
    | (Throw e, h') => (Throw e, h')
    end.
Proof. reflexivity. Qed.

Lemma run_get_heap {A} (k : list (list byte) -> M A) (h : heap) :
  run (let* x := get_heap in k x) h = run (k h) h.
Proof. reflexivity. Qed.

Lemma run_try_catch {A} (m : M A) (handler : exn -> M A) (h : heap) :
  run (try_catch m handler) h =
    match run m h with
    | (Ok a, h') => (Ok a, h')
    | (Throw e, h') => run (handler e) h'
    end.
Proof. reflexivity. Qed.

Lemma buffer_bytes_fresh (h : heap) (buf : list byte) :
  buffer_bytes (h ++ [buf]) (length h) = buf.
Proof.
  unfold buffer_bytes. rewrite list_lookup_middle; reflexivity.
Qed.

Lemma buffer_bytes_old (h : heap) (buf : list byte) (l : loc) :
  (l < length h)%nat -> buffer_bytes (h ++ [buf]) l = buffer_bytes h l.
Proof.
  intros Hl. unfold buffer_bytes. rewrite lookup_app_l; [reflexivity|lia].
Qed.

Lemma insert_fresh (h : heap) (buf buf' : list byte) :
  <[length h := buf']> (h ++ [buf]) = h ++ [buf'].
Proof.
  rewrite insert_app_r_alt by lia.
  rewrite Nat.sub_diag. reflexivity.
Qed.

Lemma run_new_ArrayBuffer (n : Z) (h : heap) :
  0 <= n ->
  run (new_ArrayBuffer n) h
  = (Ok (length h), h ++ [replicate (Z.to_nat n) x00]).
Proof.
  intros Hn. unfold run, new_ArrayBuffer.
  destruct (Z.ltb_spec n 0); [lia|reflexivity].
Qed.

Lemma run_new_Uint8Array (n : Z) (h : heap) :
  0 <= n ->
  run (new_Uint8Array n) h
  = (Ok (mkUint8Array (length h) 0 (Z.to_nat n)),
     h ++ [replicate (Z.to_nat n) x00]).
Proof.
  intros Hn. unfold new_Uint8Array.
  rewrite run_bind, run_new_ArrayBuffer by assumption.
  unfold run, new_Uint8Array_on, bind, get_heap, ret.
  rewrite buffer_bytes_fresh, length_replicate. reflexivity.
Qed.

(** Writing into a view on the newest buffer. *)
Lemma run_write_view_fresh (h : heap) (buf bs : list byte) (off len : nat) :
  run (write_view (mkUint8Array (length h) off len) bs) (h ++ [buf])
  = (Ok tt, h ++ [take off buf ++ bs ++ drop (off + length bs) buf]).
Proof.
  unfold run, write_view, bind, get_heap, put_heap. simpl.
  rewrite buffer_bytes_fresh, insert_fresh. reflexivity.
Qed.

(** ** Little-endian bytes of a number *)

Lemma byte_val_byte_of (z : Z) : byte_val (byte_of (Js.Int z)) = z mod 256.
Proof.
  unfold byte_of, byte_val, Js.ToUint8. change (2 ^ 8) with 256.
  pose proof (Z.mod_pos_bound z 256 eq_refl) as Hr.
  destruct (Byte.of_N (Z.to_N (z mod 256))) as [b|] eqn:E.
  - apply Byte.to_of_N in E. rewrite E. lia.
  - apply Byte.of_N_None_iff in E. lia.
Qed.

Lemma byte_of_byte_val (b : byte) : byte_of (Js.Int (byte_val b)) = b.
Proof. destruct b; reflexivity. Qed.

Lemma length_raw_bytes (n : nat) (v : Z) : length (raw_bytes n v) = n.
Proof.
  revert v; induction n as [|n IH]; intros v; simpl; [|rewrite IH]; reflexivity.
Qed.

Lemma raw_value_raw_bytes (n : nat) (v : Z) :
  raw_value (raw_bytes n v) = v mod 256 ^ Z.of_nat n.
Proof.
  revert v; induction n as [|n IH]; intros v.
  - simpl. symmetry. apply Z.mod_1_r.
  - cbn [raw_bytes raw_value]. rewrite IH, byte_val_byte_of.
    rewrite Nat2Z.inj_succ, Z.pow_succ_r by lia.
    rewrite Z.rem_mul_r by lia. reflexivity.
Qed.

Lemma raw_value_range (bs : list byte) :
  0 <= raw_value bs < 256 ^ Z.of_nat (length bs).
Proof.
  induction bs as [|b bs IH].
  - simpl. lia.
  - cbn [raw_value length]. pose proof (byte_val_range b).
    rewrite Nat2Z.inj_succ, Z.pow_succ_r by lia. lia.
Qed.

Lemma raw_bytes_raw_value (bs : list byte) :
  raw_bytes (length bs) (raw_value bs) = bs.
Proof.
  induction bs as [|b bs IH]; [reflexivity|].
  cbn [raw_value length raw_bytes]. pose proof (byte_val_range b).
  f_equal.
  - rewrite <- (byte_of_byte_val b) at 2.
    unfold byte_of, Js.ToUint8. change (2 ^ 8) with 256.
    replace ((byte_val b + 256 * raw_value bs) mod 256)
      with (byte_val b mod 256); [reflexivity|].
    Z.div_mod_to_equations; lia.
  - replace ((byte_val b + 256 * raw_value bs) / 256) with (raw_value bs);
      [assumption|].
    Z.div_mod_to_equations; lia.
Qed.

(** ** [uintToBuffer] and [bufferToUint] *)

Lemma run_DataView_set_fresh (h : heap) (buf : list byte) (size : nat) (v : Z)
    (littleEndian : bool) :
  (size <= length buf)%nat ->
  run (DataView_set size (mkDataView (length h) (length buf)) 0 v littleEndian)
      (h ++ [buf])
  = (Ok tt,
     h ++ [(if littleEndian then raw_bytes size v else rev (raw_bytes size v))
           ++ drop size buf]).
Proof.
  intros Hsize. unfold DataView_set. simpl dv_byteLength. simpl dv_buffer.
  destruct (Z.ltb_spec (Z.of_nat (length buf)) (0 + Z.of_nat size)); [lia|].
  simpl orb. cbv iota. change (Z.to_nat 0) with 0%nat.
  rewrite run_write_view_fresh.
  destruct littleEndian; rewrite ?length_rev, length_raw_bytes; reflexivity.
Qed.

Lemma run_DataView_get_fresh (h : heap) (buf : list byte) (size : nat)
    (littleEndian : bool) :
  (size <= length buf)%nat ->
  run (DataView_get size (mkDataView (length h) (length buf)) 0 littleEndian)
      (h ++ [buf])
  = (Ok (raw_value (if littleEndian then take size buf
                    else rev (take size buf))), h ++ [buf]).
Proof.
  intros Hsize. unfold DataView_get. simpl dv_byteLength. simpl dv_buffer.
  destruct (Z.ltb_spec (Z.of_nat (length buf)) (0 + Z.of_nat size)); [lia|].
  simpl orb. cbv iota. change (Z.to_nat 0) with 0%nat.
  unfold run, bind, get_heap, ret, view_bytes. simpl.
  rewrite buffer_bytes_fresh. reflexivity.
Qed.

Lemma run_new_DataView_fresh (h : heap) (buf : list byte) :
  run (new_DataView (length h)) (h ++ [buf])
  = (Ok (mkDataView (length h) (length buf)), h ++ [buf]).
Proof.
  unfold run, new_DataView, bind, get_heap, ret.
  rewrite buffer_bytes_fresh. reflexivity.
Qed.

Lemma run_new_Uint8Array_on_fresh (h : heap) (buf : list byte) :
  run (new_Uint8Array_on (length h)) (h ++ [buf])
  = (Ok (mkUint8Array (length h) 0 (length buf)), h ++ [buf]).
Proof.
  unfold run, new_Uint8Array_on, bind, get_heap, ret.
  rewrite buffer_bytes_fresh. reflexivity.
Qed.

(** What the three supported sizes have in common: the buffer is the
    newest one of the heap and holds the [size] low bytes of the value. *)
Lemma run_uintToBuffer (v width : Z) (h : heap) :
  width = 1 \/ width = 2 \/ width = 4 ->
  run (uintToBuffer v width) h
  = (Ok (mkUint8Array (length h) 0 (Z.to_nat width)),
     h ++ [raw_bytes (Z.to_nat width) (v mod 2 ^ (8 * width))]).
Proof.
  intros Hw. unfold uintToBuffer.
  rewrite run_bind, run_new_ArrayBuffer by lia.
  rewrite run_bind, run_new_DataView_fresh, run_try_catch, run_bind.
  pose proof (run_new_Uint8Array_on_fresh h) as Hon.
  destruct Hw as [-> | [-> | ->]]; cbv match beta;
    change (Z.to_nat 1) with 1%nat; change (Z.to_nat 2) with 2%nat;
    change (Z.to_nat 4) with 4%nat; simpl Z.eqb; cbv iota.
  - unfold setUint8.
    rewrite (run_DataView_set_fresh h (replicate 1 x00) 1) by (simpl; lia).
    rewrite Hon. reflexivity.
  - unfold setUint16.
    rewrite (run_DataView_set_fresh h (replicate 2 x00) 2) by (simpl; lia).
    rewrite Hon, length_app, length_raw_bytes. reflexivity.
  - unfold setUint32.
    rewrite (run_DataView_set_fresh h (replicate 4 x00) 4) by (simpl; lia).
    rewrite Hon, length_app, length_raw_bytes. reflexivity.
Qed.

Lemma run_bufferToUint_fresh (h : heap) (bs : list byte) :
  length bs = 1%nat \/ length bs = 2%nat \/ length bs = 4%nat ->
  run (bufferToUint (mkUint8Array (length h) 0 (length bs))) (h ++ [bs])
  = (Ok (raw_value bs), h ++ [bs]).
Proof.
  intros Hlen. unfold bufferToUint. simpl u8_buffer. simpl u8_length.
  rewrite run_bind, run_new_DataView_fresh, run_try_catch.
  assert (Hget : run (DataView_get (length bs)
                        (mkDataView (length h) (length bs)) 0 true) (h ++ [bs])
                 = (Ok (raw_value bs), h ++ [bs])).
  { rewrite run_DataView_get_fresh by lia. rewrite take_ge by lia. reflexivity. }
  destruct Hlen as [E | [E | E]]; rewrite E in *; simpl Nat.eqb; cbv iota.
  - unfold getUint8.
    rewrite <- E, run_DataView_get_fresh, take_ge by lia.
    destruct bs as [|b [|? ?]]; try discriminate E. reflexivity.
  - unfold getUint16. rewrite Hget. reflexivity.
  - unfold getUint32. rewrite Hget. reflexivity.
Qed.

(** C10: for a width of 1, 2 or 4 and any integer value, [uintToBuffer]
    does not throw: it returns a fresh array of [width] bytes that holds
    [value mod 2^(8*width)], least significant byte first, and leaves the
    buffers of the heap as they were. *)
Theorem uintToBuffer_wraps_never_throws (v width : Z) (h : heap) :
  width = 1 \/ width = 2 \/ width = 4 ->
  exists (a : Uint8Array) (h' : heap),
    run (uintToBuffer v width) h = (Ok a, h') /\
    h' = h ++ [view_bytes h' a] /\
    view_bytes h' a = raw_bytes (Z.to_nat width) (v mod 2 ^ (8 * width)) /\
    Z.of_nat (length (view_bytes h' a)) = width /\
    raw_value (view_bytes h' a) = v mod 2 ^ (8 * width).
Proof.
  intros Hw.
  eexists _, _. split; [apply run_uintToBuffer; assumption|].
  set (bs := raw_bytes (Z.to_nat width) (v mod 2 ^ (8 * width))).
  assert (Hlen : length bs = Z.to_nat width) by apply length_raw_bytes.
  assert (Hview : view_bytes (h ++ [bs])
                    (mkUint8Array (length h) 0 (Z.to_nat width)) = bs).
  { unfold view_bytes. simpl. rewrite buffer_bytes_fresh.
    apply take_ge. lia. }
  rewrite Hview. repeat split; try reflexivity.
  - lia.
  - unfold bs. rewrite raw_value_raw_bytes, Z2Nat.id by lia.
    replace (256 ^ width) with (2 ^ (8 * width))
      by (destruct Hw as [-> | [-> | ->]]; reflexivity).
    apply Z.mod_mod.
    destruct Hw as [-> | [-> | ->]]; discriminate.
Qed.

Lemma uintToBuffer_wraps_never_throws_witness :
  exists (a : Uint8Array) (h' : heap),
    run (uintToBuffer (-2) 2) [] = (Ok a, h') /\
    h' = [] ++ [view_bytes h' a] /\
    view_bytes h' a = raw_bytes (Z.to_nat 2) ((-2) mod 2 ^ (8 * 2)) /\
    Z.of_nat (length (view_bytes h' a)) = 2 /\
    raw_value (view_bytes h' a) = (-2) mod 2 ^ (8 * 2).
Proof.
  apply (uintToBuffer_wraps_never_throws (-2) 2 []). right; left; reflexivity.
Defined.

(** C6: for a width of 1, 2 or 4 and a value [0 <= v < 2^(8*width)],
    decoding what [uintToBuffer] encoded gives [v] back. *)
Theorem bufferToUint_uintToBuffer (v width : Z) (h : heap) :
  width = 1 \/ width = 2 \/ width = 4 ->
  0 <= v < 2 ^ (8 * width) ->
  exists h' : heap,
    run (let* buffer := uintToBuffer v width in bufferToUint buffer) h
    = (Ok v, h').
Proof.
  intros Hw Hv. eexists.
  rewrite run_bind, run_uintToBuffer by assumption.
  set (bs := raw_bytes (Z.to_nat width) (v mod 2 ^ (8 * width))).
  assert (Hlen : length bs = Z.to_nat width) by apply length_raw_bytes.
  rewrite <- Hlen, run_bufferToUint_fresh
    by (rewrite Hlen; destruct Hw as [-> | [-> | ->]]; auto).
  do 2 f_equal.
  unfold bs. rewrite raw_value_raw_bytes, Z2Nat.id by lia.
  replace (256 ^ width) with (2 ^ (8 * width))
    by (destruct Hw as [-> | [-> | ->]]; reflexivity).
  rewrite Z.mod_mod by (destruct Hw as [-> | [-> | ->]]; discriminate).
  apply Z.mod_small. assumption.
Qed.

Lemma bufferToUint_uintToBuffer_witness :
  exists h' : heap,
    run (let* buffer := uintToBuffer 65535 2 in bufferToUint buffer) []
    = (Ok 65535, h').
Proof.
  apply (bufferToUint_uintToBuffer 65535 2 []).
  - right; left; reflexivity.
  - simpl; lia.
Defined.

(** ** Writing through a view *)

Lemma buffer_bytes_insert (h : heap) (l : loc) (buf : list byte) :
  (l < length h)%nat -> buffer_bytes (<[l := buf]> h) l = buf.
Proof.
  intros Hl. unfold buffer_bytes.
  rewrite list_lookup_insert_eq by assumption. reflexivity.
Qed.

Lemma buffer_bytes_insert_ne (h : heap) (l l' : loc) (buf : list byte) :
  l <> l' -> buffer_bytes (<[l := buf]> h) l' = buffer_bytes h l'.
Proof.
  intros Hl. unfold buffer_bytes.
  rewrite list_lookup_insert_ne by assumption. reflexivity.
Qed.

(** After [write_view] the view shows what was written, when that has the
    length of the view. *)
Lemma view_bytes_write_view (h : heap) (a : Uint8Array) (bs : list byte) :
  wf_view h a -> length bs = u8_length a ->
  view_bytes (snd (run (write_view a bs) h)) a = bs.
Proof.
  intros [Hl Hlen] Hbs.
  unfold run, write_view, bind, get_heap, put_heap, view_bytes. simpl.
  rewrite buffer_bytes_insert by assumption.
  rewrite drop_app_length' by (rewrite length_take; lia).
  rewrite take_app_length' by lia. reflexivity.
Qed.

(** ** [bufferToBigInt] *)

(** The heap [a.reverse()] leaves behind. *)
Lemma run_u8_reverse (h : heap) (a : Uint8Array) :
  run (u8_reverse a) h
  = (Ok a, snd (run (write_view a (rev (view_bytes h a))) h)).
Proof. reflexivity. Qed.

(** What [bufferToBigInt] does on an array of eight bytes: the array is
    reversed in place, the digits of the reversed bytes are written out and
    the string goes to [BigInt]. *)
Lemma run_bufferToBigInt (h : heap) (input : Uint8Array) :
  wf_view h input -> u8_length input = 8%nat ->
  view_bytes (snd (run (u8_reverse input) h)) input
    = rev (view_bytes h input) /\
  run (bufferToBigInt input) h =
    run (BigInt (fold_left append_nibbles
                   (byte_val <$> rev (view_bytes h input)) EmptyString))
        (snd (run (u8_reverse input) h)).
Proof.
  intros Hwf H8.
  assert (Hview : view_bytes (snd (run (u8_reverse input) h)) input
                  = rev (view_bytes h input)).
  { rewrite run_u8_reverse. simpl snd.
    apply view_bytes_write_view; [assumption|].
    rewrite length_rev. apply length_view_bytes. assumption. }
  split; [assumption|].
  rewrite <- Hview. unfold bufferToBigInt. rewrite H8. reflexivity.
Qed.

Lemma parse_digits_app (radix : Z) (s1 s2 : string) (acc : Z) :
  parse_digits radix (s1 ++ s2) acc =
    match parse_digits radix s1 acc with
    | Some a => parse_digits radix s2 a
    | None => None
    end.
Proof.
  revert acc; induction s1 as [|c s1 IH]; intros acc; simpl; [reflexivity|].
  destruct (digit_value c) as [d|]; [|reflexivity].
  destruct (d <? radix); [apply IH | reflexivity].
Qed.

(** The two characters the loop appends for a byte are the digits of its
    high and low nibble. *)
Lemma nibble_chars (b : byte) :
  exists c1 c2 : ascii,
    char_at Nibble_To_Char_Map (Js.sar (Js.Int (byte_val b)) (Js.Int 4))
      = String c1 EmptyString /\
    char_at Nibble_To_Char_Map (Js.band (Js.Int (byte_val b)) (Js.Int 0x0F))
      = String c2 EmptyString /\
    digit_value c1 = Some (byte_val b / 16) /\
    digit_value c2 = Some (byte_val b mod 16).
Proof.
  destruct b; eexists _, _; repeat split.
Qed.

Lemma append_nibbles_parse (b : byte) (s : string) (acc : Z) :
  parse_digits 16 (append_nibbles s (byte_val b)) acc =
    match parse_digits 16 s acc with
    | Some a => Some (a * 256 + byte_val b)
    | None => None
    end.
Proof.
  unfold append_nibbles.
  destruct (nibble_chars b) as (c1 & c2 & -> & -> & D1 & D2).
  rewrite !parse_digits_app.
  destruct (parse_digits 16 s acc) as [a|]; [|reflexivity].
  simpl. rewrite D1.
  pose proof (byte_val_range b) as Hb.
  destruct (Z.ltb_spec (byte_val b / 16) 16);
    [|Z.div_mod_to_equations; lia].
  rewrite D2.
  destruct (Z.ltb_spec (byte_val b mod 16) 16);
    [|Z.div_mod_to_equations; lia].
  f_equal. Z.div_mod_to_equations; lia.
Qed.

Lemma fold_append_nibbles_parse (bs : list byte) (s : string) (acc : Z) :
  parse_digits 16 (fold_left append_nibbles (byte_val <$> bs) s) acc =
    match parse_digits 16 s acc with
    | Some a => Some (big_endian_value bs a)
    | None => None
    end.
Proof.
  revert s; induction bs as [|b bs IH]; intros s.
  - simpl. destruct (parse_digits 16 s acc); reflexivity.
  - cbn [fmap list_fmap fold_left]. rewrite IH, append_nibbles_parse.
    destruct (parse_digits 16 s acc); reflexivity.
Qed.

Lemma big_endian_value_rev (bs : list byte) :
  big_endian_value (rev bs) 0 = raw_value bs.
Proof.
  unfold big_endian_value.
  induction bs as [|b bs IH]; [reflexivity|].
  cbn [rev raw_value]. rewrite fold_left_app. simpl. rewrite IH. lia.
Qed.

(** The digit string that [bufferToBigInt] hands to [BigInt] holds, read
    in base 16, the little-endian value of the input. *)
Lemma bufferToBigInt_digits (bs : list byte) :
  parse_digits 16
    (fold_left append_nibbles (byte_val <$> rev bs) EmptyString) 0
  = Some (raw_value bs).
Proof.
  rewrite fold_append_nibbles_parse. simpl.
  rewrite big_endian_value_rev. reflexivity.
Qed.

(** C1, evaluated: [BigInt] is given the digits without the [0x] prefix and
    reads them in base 10.  On [10 00 00 00 00 00 00 00], whose
    little-endian value is 16, the call returns 10; on
    [0A 00 00 00 00 00 00 00], whose value is 10, it throws a
    [SyntaxError]; on [00 00 00 00 00 00 01 0B] the digits start with [0B]
    and are read in base 2. *)
Theorem bufferToBigInt_reads_decimal :
  (fst (run (bufferToBigInt (mkUint8Array 0 0 8))
          [[x10; x00; x00; x00; x00; x00; x00; x00]]) = Ok 10 /\
   raw_value [x10; x00; x00; x00; x00; x00; x00; x00] = 16) /\
  (fst (run (bufferToBigInt (mkUint8Array 0 0 8))
          [[x0a; x00; x00; x00; x00; x00; x00; x00]]) = Throw SyntaxError /\
   raw_value [x0a; x00; x00; x00; x00; x00; x00; x00] = 10) /\
  (fst (run (bufferToBigInt (mkUint8Array 0 0 8))
          [[x00; x00; x00; x00; x00; x00; x01; x0b]]) = Ok 4096 /\
   raw_value [x00; x00; x00; x00; x00; x00; x01; x0b]
     = 0x0B01000000000000).
Proof. repeat split. Qed.

(** C3, evaluated: [bufferToBigInt] reverses the caller's array in place.
    Whatever eight bytes the array shows before the call, it shows them in
    the opposite order afterwards. *)
Theorem bufferToBigInt_reverses_input (h : heap) (input : Uint8Array) :
  wf_view h input -> u8_length input = 8%nat ->
  view_bytes (snd (run (bufferToBigInt input) h)) input
  = rev (view_bytes h input).
Proof.
  intros Hwf H8.
  destruct (run_bufferToBigInt h input Hwf H8) as [Hview ->].
  unfold BigInt.
  destruct (StringToBigInt _); exact Hview.
Qed.

Lemma bufferToBigInt_reverses_input_witness :
  view_bytes
    (snd (run (bufferToBigInt (mkUint8Array 0 0 8))
            [[x01; x02; x03; x04; x05; x06; x07; x08]]))
    (mkUint8Array 0 0 8)
  = rev (view_bytes [[x01; x02; x03; x04; x05; x06; x07; x08]]
           (mkUint8Array 0 0 8)).
Proof.
  apply (bufferToBigInt_reverses_input
           [[x01; x02; x03; x04; x05; x06; x07; x08]] (mkUint8Array 0 0 8)).
  - split; simpl; lia.
  - reflexivity.
Defined.

Example bufferToBigInt_mutates_12345678 :
  run (bufferToBigInt (mkUint8Array 0 0 8))
    [[x01; x02; x03; x04; x05; x06; x07; x08]]
  = (Ok 807060504030201, [[x08; x07; x06; x05; x04; x03; x02; x01]]).
Proof. reflexivity. Qed.

(** ** Strings of hexadecimal digits *)

Lemma string_app_assoc (s1 s2 s3 : string) :
  ((s1 ++ s2) ++ s3 = s1 ++ (s2 ++ s3))%string.
Proof. induction s1 as [|c s1 IH]; simpl; [|rewrite IH]; reflexivity. Qed.

Lemma string_app_nil_r (s : string) : (s ++ EmptyString = s)%string.
Proof. induction s as [|c s IH]; simpl; [|rewrite IH]; reflexivity. Qed.

Lemma string_length_app (s1 s2 : string) :
  String.length (s1 ++ s2) = (String.length s1 + String.length s2)%nat.
Proof. induction s1 as [|c s1 IH]; simpl; [|rewrite IH]; reflexivity. Qed.

Lemma string_repeat_snoc (c : ascii) (n : nat) :
  (string_repeat c n ++ String c EmptyString = String c (string_repeat c n))%string.
Proof. induction n as [|n IH]; simpl; [|rewrite IH]; reflexivity. Qed.

Lemma length_fixed_hex (k : nat) (n : Z) : String.length (fixed_hex k n) = k.
Proof.
  revert n; induction k as [|k IH]; intros n; simpl; [reflexivity|].
  rewrite string_length_app, IH. simpl. lia.
Qed.

Lemma fixed_hex_zero (k : nat) : fixed_hex k 0 = string_repeat "0" k.
Proof.
  induction k as [|k IH]; [reflexivity|].
  cbn [fixed_hex]. change (0 / 16) with 0. rewrite IH.
  apply string_repeat_snoc.
Qed.

(** Digits above the size of the number are zeros. *)
Lemma fixed_hex_pad (j k : nat) (n : Z) :
  0 <= n < 16 ^ Z.of_nat k ->
  fixed_hex (j + k) n = (string_repeat "0" j ++ fixed_hex k n)%string.
Proof.
  revert n; induction k as [|k IH]; intros n Hn.
  - change (16 ^ Z.of_nat 0) with 1 in Hn. assert (n = 0) as -> by lia.
    rewrite Nat.add_0_r, fixed_hex_zero. simpl.
    symmetry; apply string_app_nil_r.
  - rewrite Nat.add_succ_r. cbn [fixed_hex].
    rewrite IH, string_app_assoc; [reflexivity|].
    rewrite Nat2Z.inj_succ, Z.pow_succ_r in Hn by lia.
    Z.div_mod_to_equations; lia.
Qed.

(** [to_hex_aux] writes the digits of [n] without leading zeros: some
    number [k] of them, at most [m] when [n < 16^m]. *)
Lemma to_hex_aux_fixed (fuel : nat) :
  forall (n : Z) (acc : string) (m : nat),
    0 <= n < 16 ^ Z.of_nat m -> (1 <= m)%nat ->
    n < 16 ^ Z.of_nat (S fuel) ->
    exists k : nat,
      (1 <= k <= m)%nat /\ n < 16 ^ Z.of_nat k /\
      to_hex_aux fuel n acc = (fixed_hex k n ++ acc)%string.
Proof.
  induction fuel as [|fuel IH]; intros n acc m Hn Hm Hfuel.
  - exists 1%nat. split; [lia|]. split; [exact Hfuel | reflexivity].
  - cbn [to_hex_aux].
    destruct (Z.eqb_spec (n / 16) 0) as [E|E].
    + exists 1%nat. split; [lia|]. split; [|reflexivity].
      change (16 ^ Z.of_nat 1) with 16. Z.div_mod_to_equations; lia.
    + destruct m as [|[|m]]; [lia | |].
      { change (16 ^ Z.of_nat 1) with 16 in Hn.
        Z.div_mod_to_equations; lia. }
      destruct (IH (n / 16) (String (hex_digit (n mod 16)) acc) (S m))
        as (k & Hk & Hlt & Heq).
      * rewrite (Nat2Z.inj_succ (S m)), Z.pow_succ_r in Hn by lia.
        Z.div_mod_to_equations; lia.
      * lia.
      * rewrite (Nat2Z.inj_succ (S fuel)), Z.pow_succ_r in Hfuel by lia.
        Z.div_mod_to_equations; lia.
      * exists (S k). split; [lia|]. split.
        -- rewrite Nat2Z.inj_succ, Z.pow_succ_r by lia.
           Z.div_mod_to_equations; lia.
        -- rewrite Heq. cbn [fixed_hex].
           rewrite string_app_assoc. reflexivity.
Qed.

(** The fuel [BigInt_toString16] gives is enough. *)
Lemma log2_fuel (n : Z) : 0 <= n -> n < 16 ^ Z.of_nat (S (Z.to_nat (Z.log2 n))).
Proof.
  intros Hn.
  rewrite Nat2Z.inj_succ, Z2Nat.id by apply Z.log2_nonneg.
  destruct (Z.eq_dec n 0) as [->|Hne]; [reflexivity|].
  pose proof (Z.log2_spec n ltac:(lia)) as [_ Hlt].
  pose proof (Z.log2_nonneg n) as Hl.
  assert (2 ^ Z.succ (Z.log2 n) <= 16 ^ Z.succ (Z.log2 n))
    by (apply Z.pow_le_mono_l; lia).
  lia.
Qed.

(** [toString(16)] followed by [padStart(16, '0')] on a number below
    [2^64]: its sixteen digits. *)
Lemma padStart_toString16 (n : Z) :
  0 <= n < 2 ^ 64 ->
  padStart 16 "0" (BigInt_toString16 n) = fixed_hex 16 n.
Proof.
  intros Hn. unfold BigInt_toString16.
  destruct (Z.ltb_spec n 0); [lia|].
  destruct (to_hex_aux_fixed (Z.to_nat (Z.log2 n)) n EmptyString 16)
    as (k & Hk & Hlt & ->).
  - exact Hn.
  - lia.
  - apply log2_fuel. lia.
  - rewrite string_app_nil_r. unfold padStart. rewrite length_fixed_hex.
    rewrite <- fixed_hex_pad by lia.
    f_equal. lia.
Qed.

Lemma hex_of_bytes_app (l1 l2 : list byte) :
  hex_of_bytes (l1 ++ l2) = (hex_of_bytes l1 ++ hex_of_bytes l2)%string.
Proof.
  induction l1 as [|b l1 IH]; [reflexivity|].
  cbn [hex_of_bytes app]. rewrite IH. reflexivity.
Qed.

(** The digits of a little-endian value are those of its bytes from the
    last to the first. *)
Lemma fixed_hex_raw_value (bs : list byte) :
  fixed_hex (2 * length bs) (raw_value bs) = hex_of_bytes (rev bs).
Proof.
  induction bs as [|b bs IH]; [reflexivity|].
  cbn [length raw_value rev].
  replace (2 * S (length bs))%nat with (S (S (2 * length bs))) by lia.
  cbn [fixed_hex]. pose proof (byte_val_range b) as Hb.
  replace ((byte_val b + 256 * raw_value bs) / 16 / 16) with (raw_value bs)
    by (Z.div_mod_to_equations; lia).
  replace ((byte_val b + 256 * raw_value bs) / 16 mod 16)
    with (byte_val b / 16) by (Z.div_mod_to_equations; lia).
  replace ((byte_val b + 256 * raw_value bs) mod 16)
    with (byte_val b mod 16) by (Z.div_mod_to_equations; lia).
  rewrite IH, hex_of_bytes_app, string_app_assoc. reflexivity.
Qed.

Lemma length_hex_of_bytes (bs : list byte) :
  String.length (hex_of_bytes bs) = (2 * length bs)%nat.
Proof.
  induction bs as [|b bs IH]; [reflexivity|].
  cbn [hex_of_bytes length]. unfold hex_pair. simpl. rewrite IH. lia.
Qed.

(** The slice at [2 * i] is the pair of digits of the byte at [i]. *)
Lemma slice2_hex_of_bytes (done rest : list byte) (b : byte) :
  slice2 (hex_of_bytes (done ++ b :: rest)) (2 * length done) = hex_pair b.
Proof.
  unfold slice2. induction done as [|d done IH].
  - simpl. destruct (hex_of_bytes rest); reflexivity.
  - cbn [length app hex_of_bytes].
    replace (2 * S (length done))%nat with (S (S (2 * length done))) by lia.
    exact IH.
Qed.

Lemma parseInt16_hex_pair (b : byte) :
  parseInt16 (hex_pair b) = Js.Int (byte_val b).
Proof. destruct b; reflexivity. Qed.

(** ** [bigIntToBuffer] *)

Lemma run_u8_set_fresh (h : heap) (buf : list byte) (len i : nat)
    (v : Js.number) :
  (i < len)%nat ->
  run (u8_set (mkUint8Array (length h) 0 len) (Z.of_nat i) v) (h ++ [buf])
  = (Ok tt, h ++ [<[i := byte_of v]> buf]).
Proof.
  intros Hi. unfold run, u8_set, bind, get_heap, put_heap. simpl.
  destruct (Z.leb_spec 0 (Z.of_nat i)); [|lia].
  destruct (Z.ltb_spec (Z.of_nat i) (Z.of_nat len)); [|lia].
  simpl. rewrite Nat2Z.id, buffer_bytes_fresh, insert_fresh. reflexivity.
Qed.

(** The loop, started at the index [length done] on the digits of
    [done ++ rest], stores the bytes of [rest] from that index on. *)
Lemma run_bigIntToBuffer_loop (h : heap) (rest : list byte) :
  forall (done buf : list byte),
    length buf = (length done + length rest)%nat ->
    run (bigIntToBuffer_loop (length rest) (hex_of_bytes (done ++ rest))
           (mkUint8Array (length h) 0 (length buf))
           (length done) (2 * length done))
        (h ++ [buf])
    = (Ok tt,
       h ++ [take (length done) buf ++ rest
             ++ drop (length done + length rest) buf]).
Proof.
  induction rest as [|b rest IH]; intros done buf Hlen.
  - simpl. rewrite Nat.add_0_r, take_drop. reflexivity.
  - cbn [length bigIntToBuffer_loop]. cbn [length] in Hlen.
    rewrite run_bind, slice2_hex_of_bytes, parseInt16_hex_pair.
    rewrite run_u8_set_fresh, byte_of_byte_val by lia.
    specialize (IH (done ++ [b]) (<[length done := b]> buf)).
    rewrite <- app_assoc, length_app, length_insert in IH. cbn [length app] in IH.
    replace (2 * (length done + 1))%nat with (2 * length done + 2)%nat in IH
      by lia.
    rewrite IH by lia. do 3 f_equal.
    replace (length done + 1)%nat with (S (length done)) by lia.
    rewrite (take_S_r _ _ b) by (apply list_lookup_insert_eq; lia).
    rewrite take_insert_ge by lia.
    rewrite drop_insert_lt by lia.
    rewrite <- app_assoc. simpl.
    rewrite Nat.add_succ_r. reflexivity.
Qed.

(** C2, as the code has it: [bigIntToBuffer] writes the most significant
    byte first.  Applied to the little-endian value of eight bytes it
    returns a fresh array that holds the eight bytes in reverse order. *)
Theorem bigIntToBuffer_of_little_endian_value (bs : list byte) (h : heap) :
  length bs = 8%nat ->
  exists (a : Uint8Array) (h' : heap),
    run (bigIntToBuffer (raw_value bs)) h = (Ok a, h') /\
    h' = h ++ [rev bs] /\
    view_bytes h' a = rev bs.
Proof.
  intros H8.
  exists (mkUint8Array (length h) 0 8), (h ++ [rev bs]).
  assert (Hview : view_bytes (h ++ [rev bs]) (mkUint8Array (length h) 0 8)
                  = rev bs).
  { unfold view_bytes. simpl. rewrite buffer_bytes_fresh.
    apply take_ge. rewrite length_rev. lia. }
  split; [|split; [reflexivity | exact Hview]].
  unfold bigIntToBuffer.
  pose proof (raw_value_range bs) as Hr. rewrite H8 in Hr.
  rewrite padStart_toString16 by exact Hr.
  assert (Hhex : fixed_hex 16 (raw_value bs) = hex_of_bytes (rev bs))
    by (rewrite <- fixed_hex_raw_value, H8; reflexivity).
  rewrite Hhex, length_hex_of_bytes, length_rev, H8.
  change (Z.of_nat (2 * 8 / 2)) with 8.
  change ((2 * 8 + 1) / 2)%nat with 8%nat.
  rewrite run_bind, run_new_Uint8Array by lia.
  change (Z.to_nat 8) with 8%nat.
  assert (Hloop :
            run (bigIntToBuffer_loop 8 (hex_of_bytes (rev bs))
                   (mkUint8Array (length h) 0 8) 0 0)
                (h ++ [replicate 8 x00])
            = (Ok tt, h ++ [rev bs])).
  { pose proof (run_bigIntToBuffer_loop h (rev bs) [] (replicate 8 x00)) as L.
    rewrite length_rev, H8 in L.
    etransitivity; [exact (L eq_refl)|].
    cbn [length take app Nat.add].
    rewrite drop_ge by (rewrite length_replicate; lia).
    rewrite app_nil_r. reflexivity. }
  rewrite run_bind, Hloop. reflexivity.
Qed.

Lemma bigIntToBuffer_of_little_endian_value_witness :
  exists (a : Uint8Array) (h' : heap),
    run (bigIntToBuffer
           (raw_value [x01; x02; x03; x04; x05; x06; x07; x08])) [] = (Ok a, h') /\
    h' = [] ++ [rev [x01; x02; x03; x04; x05; x06; x07; x08]] /\
    view_bytes h' a = rev [x01; x02; x03; x04; x05; x06; x07; x08].
Proof.
  apply (bigIntToBuffer_of_little_endian_value
           [x01; x02; x03; x04; x05; x06; x07; x08] []).
  reflexivity.
Defined.

(** C2, counterexample: on the bytes [01 00 00 00 00 00 00 00] the round
    trip returns an array that holds [00 00 00 00 00 00 00 01], which is not
    the sequence that went in. *)
Lemma bigIntToBuffer_bufferToBigInt_differs :
  view_bytes [[x01; x00; x00; x00; x00; x00; x00; x00]] (mkUint8Array 0 0 8)
    = [x01; x00; x00; x00; x00; x00; x00; x00] /\
  run (let* v := bufferToBigInt (mkUint8Array 0 0 8) in bigIntToBuffer v)
      [[x01; x00; x00; x00; x00; x00; x00; x00]]
    = (Ok (mkUint8Array 1 0 8),
       [[x00; x00; x00; x00; x00; x00; x00; x01];
        [x00; x00; x00; x00; x00; x00; x00; x01]]) /\
  view_bytes [[x00; x00; x00; x00; x00; x00; x00; x01];
              [x00; x00; x00; x00; x00; x00; x00; x01]] (mkUint8Array 1 0 8)
    = [x00; x00; x00; x00; x00; x00; x00; x01] /\
  [x00; x00; x00; x00; x00; x00; x00; x01]
    <> [x01; x00; x00; x00; x00; x00; x00; x00].
Proof. repeat split. discriminate. Qed.

Example bigIntToBuffer_bufferToBigInt_0x10 :
  run (let* v := bufferToBigInt (mkUint8Array 0 0 8) in bigIntToBuffer v)
      [[x10; x00; x00; x00; x00; x00; x00; x00]]
  = (Ok (mkUint8Array 1 0 8),
     [[x00; x00; x00; x00; x00; x00; x00; x10];
      [x00; x00; x00; x00; x00; x00; x00; x0a]]).
Proof. reflexivity. Qed.

(** ** The operations that leave their arguments alone *)

Lemma view_bytes_old (h : heap) (buf : list byte) (a : Uint8Array) :
  (u8_buffer a < length h)%nat -> view_bytes (h ++ [buf]) a = view_bytes h a.
Proof.
  intros Hl. unfold view_bytes. rewrite buffer_bytes_old by assumption.
  reflexivity.
Qed.

(** [bufferToUint] leaves the heap as it is, whatever it returns. *)
Lemma bufferToUint_heap_unchanged (h : heap) (buffer : Uint8Array) :
  snd (run (bufferToUint buffer) h) = h.
Proof.
  unfold bufferToUint, run, bind, try_catch, new_DataView, get_heap, ret.
  cbv beta iota.
  destruct (1 =? u8_length buffer)%nat;
    [|destruct (2 =? u8_length buffer)%nat;
      [|destruct (4 =? u8_length buffer)%nat]];
    unfold getUint8, getUint16, getUint32, DataView_get, throw, bind,
      get_heap, ret;
    try match goal with |- context [orb ?a ?b] => destruct (orb a b) end;
    reflexivity.
Qed.

Lemma run_u8_set_from_fresh (h : heap) (buf : list byte) (len : nat)
    (source : Uint8Array) (offset : nat) :
  (u8_buffer source < length h)%nat ->
  (u8_length source + offset <= len)%nat ->
  run (u8_set_from (mkUint8Array (length h) 0 len) source offset) (h ++ [buf])
  = (Ok tt,
     h ++ [take offset buf ++ view_bytes h source
           ++ drop (offset + length (view_bytes h source)) buf]).
Proof.
  intros Hl Hfit. unfold u8_set_from. cbn [u8_length u8_buffer u8_byteOffset].
  destruct (Nat.ltb_spec len (u8_length source + offset)); [lia|].
  rewrite run_get_heap, run_write_view_fresh, view_bytes_old by assumption.
  reflexivity.
Qed.

(** X1: [concatTypedArrays] returns a fresh array holding the bytes of the
    first array followed by those of the second; the buffers that were
    there keep their bytes. *)
Lemma run_concatTypedArrays (h : heap) (array1 array2 : Uint8Array) :
  wf_view h array1 -> wf_view h array2 ->
  run (concatTypedArrays array1 array2) h
  = (Ok (mkUint8Array (length h) 0 (u8_length array1 + u8_length array2)),
     h ++ [view_bytes h array1 ++ view_bytes h array2]).
Proof.
  intros Hwf1 Hwf2.
  pose proof (length_view_bytes h array1 Hwf1) as Hlen1.
  pose proof (length_view_bytes h array2 Hwf2) as Hlen2.
  destruct Hwf1 as [Hl1 _], Hwf2 as [Hl2 _].
  unfold concatTypedArrays.
  rewrite run_bind, run_new_Uint8Array, Nat2Z.id by lia.
  rewrite run_bind, run_u8_set_from_fresh by (assumption || lia).
  rewrite run_bind, run_u8_set_from_fresh by (assumption || lia).
  unfold run, ret. do 3 f_equal.
  rewrite Hlen1, Hlen2, !take_0. cbn [Nat.add app].
  rewrite take_app_length' by lia.
  rewrite drop_ge by (rewrite length_app, length_drop, length_replicate; lia).
  rewrite app_nil_r. reflexivity.
Qed.

(** X2: for [0 <= size <= length], [getBytes] returns a fresh array
    holding the first [size] bytes and leaves the other buffers alone. *)
Lemma run_getBytes (h : heap) (binary : Uint8Array) (size : Z) :
  wf_view h binary -> 0 <= size <= Z.of_nat (u8_length binary) ->
  run (getBytes binary size) h
  = (Ok (mkUint8Array (length h) 0 (Z.to_nat size)),
     h ++ [take (Z.to_nat size) (view_bytes h binary)]).
Proof.
  intros Hwf Hsize.
  pose proof (length_view_bytes h binary Hwf) as Hlen.
  unfold getBytes.
  destruct (Z.ltb_spec (Z.of_nat (u8_length binary)) size); [lia|].
  rewrite run_bind. unfold u8_slice. change (0 <? 0) with false. cbv iota.
  destruct (Z.ltb_spec size 0); [lia|].
  rewrite (Z.min_l 0), (Z.min_l size), Z.sub_0_r, Z.max_l by lia.
  rewrite run_get_heap, run_bind, run_new_Uint8Array by lia.
  rewrite run_bind, run_write_view_fresh.
  unfold run, ret. do 3 f_equal.
  change (Z.to_nat 0) with 0%nat. rewrite take_0, drop_0. cbn [app Nat.add].
  rewrite drop_ge by (rewrite length_take, length_replicate; lia).
  apply app_nil_r.
Qed.

(** X3: an array whose length is not 8 is rejected before it is touched. *)
Lemma bufferToBigInt_rejects_length (h : heap) (input : Uint8Array) :
  u8_length input <> 8%nat ->
  run (bufferToBigInt input) h
  = (Throw (Error_unexpected_size (u8_length input)), h).
Proof.
  intros Hne. unfold bufferToBigInt.
  destruct (Nat.eqb_spec 8 (u8_length input)); [congruence|reflexivity].
Qed.

Example concatTypedArrays_examples :
  run (concatTypedArrays (mkUint8Array 0 0 2) (mkUint8Array 1 0 2))
      [[x01; x02]; [x03; x04]]
  = (Ok (mkUint8Array 2 0 4), [[x01; x02]; [x03; x04]; [x01; x02; x03; x04]]) /\
  run (concatTypedArrays (mkUint8Array 0 0 0) (mkUint8Array 1 0 1)) [[]; [x01]]
  = (Ok (mkUint8Array 2 0 1), [[]; [x01]; [x01]]) /\
  run (getBytes (mkUint8Array 0 0 3) 5) [[x01; x02; x03]]
  = (Throw RangeError, [[x01; x02; x03]]).
Proof. repeat split. Qed.

Example getTransactionPaddingSize_examples :
  getTransactionPaddingSize 14 8 = Js.Int 2 /\
  getTransactionPaddingSize 16 8 = Js.Int 0 /\
  getTransactionPaddingSize 16 0 = Js.NaN.
Proof. repeat split. Qed.



Lemma run_concatTypedArrays_witness :
  run (concatTypedArrays (mkUint8Array 0 0 2) (mkUint8Array 1 1 2))
      [[x01; x02]; [x00; x03; x04]]
  = (Ok (mkUint8Array (length [[x01; x02]; [x00; x03; x04]]) 0
           (u8_length (mkUint8Array 0 0 2) + u8_length (mkUint8Array 1 1 2))),
     [[x01; x02]; [x00; x03; x04]]
       ++ [view_bytes [[x01; x02]; [x00; x03; x04]] (mkUint8Array 0 0 2)
           ++ view_bytes [[x01; x02]; [x00; x03; x04]] (mkUint8Array 1 1 2)]).
Proof.
  apply (run_concatTypedArrays [[x01; x02]; [x00; x03; x04]]
           (mkUint8Array 0 0 2) (mkUint8Array 1 1 2));
    split; simpl; lia.
Defined.

Lemma run_getBytes_witness :
  run (getBytes (mkUint8Array 0 1 3) 2) [[x01; x02; x03; x04]]
  = (Ok (mkUint8Array (length [[x01; x02; x03; x04]]) 0 (Z.to_nat 2)),
     [[x01; x02; x03; x04]]
       ++ [take (Z.to_nat 2)
             (view_bytes [[x01; x02; x03; x04]] (mkUint8Array 0 1 3))]).
Proof.
  apply (run_getBytes [[x01; x02; x03; x04]] (mkUint8Array 0 1 3) 2).
  - split; simpl; lia.
  - simpl; lia.
Defined.

Lemma bufferToBigInt_rejects_length_witness :
  run (bufferToBigInt (mkUint8Array 0 0 7))
      [[x01; x02; x03; x04; x05; x06; x07]]
  = (Throw (Error_unexpected_size (u8_length (mkUint8Array 0 0 7))),
     [[x01; x02; x03; x04; x05; x06; x07]]).
Proof.
  apply (bufferToBigInt_rejects_length
           [[x01; x02; x03; x04; x05; x06; x07]] (mkUint8Array 0 0 7)).
  simpl. lia.
Defined.

(** ** More on [uintToBuffer] and [bufferToUint] *)



(** X6: an array whose length is not 1, 2 or 4 makes [bufferToUint] throw
    'Unexpected buffer size' wrapped in the 'Converting buffer' error; the
    heap is left as it was. *)
Theorem bufferToUint_unsupported_length (h : heap) (buffer : Uint8Array) :
  u8_length buffer <> 1%nat -> u8_length buffer <> 2%nat ->
  u8_length buffer <> 4%nat ->
  run (bufferToUint buffer) h
  = (Throw (Error_converting_buffer Error_unexpected_buffer_size), h).
Proof.
  intros H1 H2 H4. unfold bufferToUint.
  unfold run, bind, new_DataView, get_heap, ret, try_catch. cbv beta iota.
  destruct (Nat.eqb_spec 1 (u8_length buffer)); [congruence|].
  destruct (Nat.eqb_spec 2 (u8_length buffer)); [congruence|].
  destruct (Nat.eqb_spec 4 (u8_length buffer)); [congruence|].
  reflexivity.
Qed.

Lemma bufferToUint_unsupported_length_witness :
  run (bufferToUint (mkUint8Array 0 0 3)) [[x01; x02; x03]]
  = (Throw (Error_converting_buffer Error_unexpected_buffer_size),
     [[x01; x02; x03]]).
Proof.
  apply (bufferToUint_unsupported_length [[x01; x02; x03]]
           (mkUint8Array 0 0 3)); simpl; lia.
Defined.

Lemma run_new_DataView (h : heap) (l : loc) :
  run (new_DataView l) h
  = (Ok (mkDataView l (length (buffer_bytes h l))), h).
Proof. reflexivity. Qed.

Lemma run_DataView_get_start (h : heap) (l : loc) (size : nat)
    (littleEndian : bool) :
  (size <= length (buffer_bytes h l))%nat ->
  run (DataView_get size (mkDataView l (length (buffer_bytes h l))) 0
         littleEndian) h
  = (Ok (raw_value (if littleEndian then take size (buffer_bytes h l)
                    else rev (take size (buffer_bytes h l)))), h).
Proof.
  intros Hsize. unfold DataView_get. simpl dv_byteLength. simpl dv_buffer.
  destruct (Z.ltb_spec (Z.of_nat (length (buffer_bytes h l)))
              (0 + Z.of_nat size)); [lia|].
  simpl orb. cbv iota. change (Z.to_nat 0) with 0%nat.
  rewrite run_get_heap. unfold run, ret, view_bytes. simpl.
  reflexivity.
Qed.

(** X7: on an array of 1, 2 or 4 bytes [bufferToUint] returns the
    little-endian value of the first bytes of the underlying
    [ArrayBuffer], because the [DataView] is made on [buffer.buffer]: that
    is the value of the array itself when its byte offset is 0, and the
    value of other bytes when it is not.  The heap is left as it was. *)
Theorem bufferToUint_reads_buffer_start (h : heap) (buffer : Uint8Array) :
  wf_view h buffer ->
  u8_length buffer = 1%nat \/ u8_length buffer = 2%nat
  \/ u8_length buffer = 4%nat ->
  run (bufferToUint buffer) h
    = (Ok (raw_value (take (u8_length buffer)
                        (buffer_bytes h (u8_buffer buffer)))), h) /\
  (u8_byteOffset buffer = 0%nat ->
   take (u8_length buffer) (buffer_bytes h (u8_buffer buffer))
   = view_bytes h buffer).
Proof.
  intros [Hl Hfit] Hlen. split.
  - unfold bufferToUint. rewrite run_bind, run_new_DataView, run_try_catch.
    assert (Hget : forall le : bool,
              run (DataView_get (u8_length buffer)
                     (mkDataView (u8_buffer buffer)
                        (length (buffer_bytes h (u8_buffer buffer)))) 0 le) h
              = (Ok (raw_value
                       (if le
                        then take (u8_length buffer)
                               (buffer_bytes h (u8_buffer buffer))
                        else rev (take (u8_length buffer)
                                    (buffer_bytes h (u8_buffer buffer))))), h))
      by (intros le; apply run_DataView_get_start; lia).
    destruct Hlen as [E | [E | E]]; rewrite E in *; simpl Nat.eqb; cbv iota.
    + unfold getUint8. rewrite Hget.
      destruct (buffer_bytes h (u8_buffer buffer)); reflexivity.
    + unfold getUint16. rewrite Hget. reflexivity.
    + unfold getUint32. rewrite Hget. reflexivity.
  - intros Hoff. unfold view_bytes. rewrite Hoff, drop_0. reflexivity.
Qed.

Lemma bufferToUint_reads_buffer_start_witness :
  run (bufferToUint (mkUint8Array 0 2 2)) [[x01; x02; x03; x04]]
    = (Ok (raw_value (take (u8_length (mkUint8Array 0 2 2))
                        (buffer_bytes [[x01; x02; x03; x04]]
                           (u8_buffer (mkUint8Array 0 2 2))))),
       [[x01; x02; x03; x04]]) /\
  (u8_byteOffset (mkUint8Array 0 2 2) = 0%nat ->
   take (u8_length (mkUint8Array 0 2 2))
     (buffer_bytes [[x01; x02; x03; x04]] (u8_buffer (mkUint8Array 0 2 2)))
   = view_bytes [[x01; x02; x03; x04]] (mkUint8Array 0 2 2)).
Proof.
  apply (bufferToUint_reads_buffer_start [[x01; x02; x03; x04]]
           (mkUint8Array 0 2 2)).
  - split; simpl; lia.
  - right; left; reflexivity.
Defined.

(** On an array of 1, 2 or 4 bytes at byte offset 0, [bufferToUint]
    returns the little-endian value of the array. *)
Lemma run_bufferToUint_whole (h : heap) (buffer : Uint8Array) :
  wf_view h buffer -> u8_byteOffset buffer = 0%nat ->
  u8_length buffer = 1%nat \/ u8_length buffer = 2%nat
  \/ u8_length buffer = 4%nat ->
  run (bufferToUint buffer) h = (Ok (raw_value (view_bytes h buffer)), h).
Proof.
  intros Hwf Hoff Hlen.
  pose proof (length_view_bytes h buffer Hwf) as Hbs.
  unfold bufferToUint. rewrite run_bind, run_new_DataView, run_try_catch.
  destruct Hwf as [Hl Hfit].
  assert (Hget : forall le : bool,
            run (DataView_get (u8_length buffer)
                   (mkDataView (u8_buffer buffer)
                      (length (buffer_bytes h (u8_buffer buffer)))) 0 le) h
            = (Ok (raw_value
                     (if le then view_bytes h buffer
                      else rev (view_bytes h buffer))), h)).
  { intros le. rewrite run_DataView_get_start by lia.
    unfold view_bytes. rewrite Hoff, drop_0. reflexivity. }
  destruct Hlen as [E | [E | E]]; rewrite E in *; simpl Nat.eqb; cbv iota.
  - unfold getUint8. rewrite Hget.
    destruct (view_bytes h buffer) as [|b [|? ?]]; try discriminate Hbs.
    reflexivity.
  - unfold getUint16. rewrite Hget. reflexivity.
  - unfold getUint32. rewrite Hget. reflexivity.
Qed.

(** X8: the round trip in the other direction.  For an array of 1, 2 or 4
    bytes at byte offset 0, encoding what [bufferToUint] decoded gives a
    fresh array with the same bytes. *)
Theorem uintToBuffer_bufferToUint (h : heap) (buffer : Uint8Array) :
  wf_view h buffer -> u8_byteOffset buffer = 0%nat ->
  u8_length buffer = 1%nat \/ u8_length buffer = 2%nat
  \/ u8_length buffer = 4%nat ->
  run (let* v := bufferToUint buffer in
       uintToBuffer v (Z.of_nat (u8_length buffer))) h
  = (Ok (mkUint8Array (length h) 0 (u8_length buffer)),
     h ++ [view_bytes h buffer]).
Proof.
  intros Hwf Hoff Hlen.
  pose proof (length_view_bytes h buffer Hwf) as Hbs.
  rewrite run_bind, run_bufferToUint_whole by assumption.
  rewrite run_uintToBuffer by lia.
  rewrite Nat2Z.id. do 3 f_equal.
  pose proof (raw_value_range (view_bytes h buffer)) as Hr.
  rewrite Hbs in Hr.
  replace (2 ^ (8 * Z.of_nat (u8_length buffer)))
    with (256 ^ Z.of_nat (u8_length buffer))
    by (destruct Hlen as [-> | [-> | ->]]; reflexivity).
  rewrite Z.mod_small by exact Hr.
  rewrite <- Hbs at 1. apply raw_bytes_raw_value.
Qed.

Lemma uintToBuffer_bufferToUint_witness :
  run (let* v := bufferToUint (mkUint8Array 0 0 4) in
       uintToBuffer v (Z.of_nat (u8_length (mkUint8Array 0 0 4))))
      [[x78; x56; x34; x92]]
  = (Ok (mkUint8Array (length [[x78; x56; x34; x92]]) 0
           (u8_length (mkUint8Array 0 0 4))),
     [[x78; x56; x34; x92]]
       ++ [view_bytes [[x78; x56; x34; x92]] (mkUint8Array 0 0 4)]).
Proof.
  apply (uintToBuffer_bufferToUint [[x78; x56; x34; x92]]
           (mkUint8Array 0 0 4)).
  - split; simpl; lia.
  - reflexivity.
  - right; right; reflexivity.
Defined.

(** ** More on [readUint32At] *)

Lemma u8_elem_of_view (h : heap) (a : Uint8Array) (bs : list byte) (i : nat) :
  view_bytes h a = bs ->
  u8_elem h a (Z.of_nat i) = byte_val <$> bs !! i.
Proof.
  intros <-. unfold u8_elem.
  destruct (Z.ltb_spec (Z.of_nat i) 0); [lia|].
  rewrite Nat2Z.id. reflexivity.
Qed.

(** The value [readUint32At] returns at index 0 of an array that shows
    exactly four bytes. *)
Lemma run_readUint32At_four (h : heap) (a : Uint8Array) (b0 b1 b2 b3 : byte) :
  view_bytes h a = [b0; b1; b2; b3] ->
  run (readUint32At a 0) h = (Ok (raw_value [b0; b1; b2; b3]), h).
Proof.
  intros Hview. rewrite readUint32At_total.
  assert (E0 : u8_elem h a 0 = Some (byte_val b0))
    by exact (u8_elem_of_view h a _ 0 Hview).
  assert (E1 : u8_elem h a (0 + 1) = Some (byte_val b1))
    by exact (u8_elem_of_view h a _ 1 Hview).
  assert (E2 : u8_elem h a (0 + 2) = Some (byte_val b2))
    by exact (u8_elem_of_view h a _ 2 Hview).
  assert (E3 : u8_elem h a (0 + 3) = Some (byte_val b3))
    by exact (u8_elem_of_view h a _ 3 Hview).
  rewrite E0, E1, E2, E3. cbn [raw_value]. simpl default.
  change (2 ^ 24) with 16777216. change (2 ^ 16) with 65536.
  change (2 ^ 8) with 256.
  do 2 f_equal. lia.
Qed.

(** X9: on an array of four bytes at byte offset 0, [readUint32At] at index
    0 and [bufferToUint] return the same number and leave the same heap. *)
Theorem readUint32At_agrees_with_bufferToUint (h : heap) (a : Uint8Array) :
  wf_view h a -> u8_byteOffset a = 0%nat -> u8_length a = 4%nat ->
  run (readUint32At a 0) h = run (bufferToUint a) h.
Proof.
  intros Hwf Hoff H4.
  pose proof (length_view_bytes h a Hwf) as Hlen. rewrite H4 in Hlen.
  rewrite run_bufferToUint_whole by auto.
  destruct (view_bytes h a) as [|b0 [|b1 [|b2 [|b3 [|? ?]]]]] eqn:Hview;
    try discriminate Hlen.
  apply run_readUint32At_four. assumption.
Qed.

Lemma readUint32At_agrees_with_bufferToUint_witness :
  run (readUint32At (mkUint8Array 0 0 4) 0) [[x78; x56; x34; xf2]]
  = run (bufferToUint (mkUint8Array 0 0 4)) [[x78; x56; x34; xf2]].
Proof.
  apply (readUint32At_agrees_with_bufferToUint [[x78; x56; x34; xf2]]
           (mkUint8Array 0 0 4)).
  - split; simpl; lia.
  - reflexivity.
  - reflexivity.
Defined.

(** X10: reading at index 0 what [uintToBuffer] wrote in four bytes returns
    the value modulo [2^32], for every integer value. *)
Theorem readUint32At_uintToBuffer (v : Z) (h : heap) :
  run (let* buffer := uintToBuffer v 4 in readUint32At buffer 0) h
  = (Ok (v mod 2 ^ 32), h ++ [raw_bytes 4 (v mod 2 ^ 32)]).
Proof.
  rewrite run_bind, run_uintToBuffer by auto.
  change (Z.to_nat 4) with 4%nat. change (8 * 4) with 32.
  set (x := v mod 2 ^ 32).
  rewrite (run_readUint32At_four _ _
             (byte_of (Js.Int x)) (byte_of (Js.Int (x / 256)))
             (byte_of (Js.Int (x / 256 / 256)))
             (byte_of (Js.Int (x / 256 / 256 / 256)))).
  - do 2 f_equal.
    pose proof (raw_value_raw_bytes 4 x) as Hv.
    cbn [raw_bytes] in Hv. rewrite Hv.
    change (256 ^ Z.of_nat 4) with (2 ^ 32).
    unfold x. apply Z.mod_mod. discriminate.
  - unfold view_bytes. simpl. rewrite buffer_bytes_fresh. reflexivity.
Qed.

(** X11: [readUint32At] never throws and never writes: for every array and
    every integer index, inside the array or not, it returns a number of
    [[0, 2^32)] and leaves the heap as it was; at a negative index the
    number is 0. *)
Theorem readUint32At_uint32 (h : heap) (bytes : Uint8Array) (index : Z) :
  exists v : Z,
    run (readUint32At bytes index) h = (Ok v, h) /\
    0 <= v < 2 ^ 32 /\
    (index < 0 -> v = 0).
Proof.
  rewrite readUint32At_total. eexists. split; [reflexivity|]. split.
  - destruct (u8_elem h bytes index) as [b0|] eqn:E0; [|lia].
    apply u8_elem_range in E0.
    assert (R : forall i, 0 <= default 0 (u8_elem h bytes i) < 256).
    { intros i. destruct (u8_elem h bytes i) eqn:E; simpl; [|lia].
      eapply u8_elem_range; eassumption. }
    pose proof (R (index + 1)). pose proof (R (index + 2)).
    pose proof (R (index + 3)).
    change (2 ^ 32) with 4294967296. change (2 ^ 24) with 16777216.
    change (2 ^ 16) with 65536. change (2 ^ 8) with 256. lia.
  - intros Hneg. unfold u8_elem at 1.
    destruct (Z.ltb_spec index 0); [reflexivity|lia].
Qed.

Lemma readUint32At_uint32_witness :
  exists v : Z,
    run (readUint32At (mkUint8Array 0 0 4) (-1)) [[xff; xff; xff; xff]]
      = (Ok v, [[xff; xff; xff; xff]]) /\
    0 <= v < 2 ^ 32 /\
    (-1 < 0 -> v = 0).
Proof.
  exact (readUint32At_uint32 [[xff; xff; xff; xff]] (mkUint8Array 0 0 4) (-1)).
Defined.

(** ** More on [compact], [fromUint] and [uint8ToInt8] *)

(** X12: [fromUint] undoes [compact].  When [compact] turns a pair of
    limbs below [2^32] into a number, [fromUint] of that number is the
    pair again. *)
Theorem fromUint_compact (low high : Z) :
  0 <= low < 2 ^ 32 -> 0 <= high < 0x00200000 ->
  exists n : Z,
    compact [low; high] = Numeric (Js.Int n) /\
    fromUint n = [low; high].
Proof.
  intros Hlow Hhigh. exists (high * 0x100000000 + low).
  change 0x00200000 with 2097152 in Hhigh.
  change (2 ^ 32) with 4294967296 in Hlow.
  split.
  - unfold compact. simpl.
    destruct (Z.leb_spec 2097152 high); [lia|reflexivity].
  - unfold fromUint. rewrite band_all_ones. unfold Js.shru, Js.div_pow2.
    change (Js.ToUint32 (Js.Int 0) mod 32) with 0. rewrite !Z.shiftr_0_r.
    rewrite ToInt32_centered. unfold Js.ToUint32.
    rewrite Z.quot_div_nonneg by lia.
    change 0x100000000 with 4294967296.
    change (2 ^ 32) with 4294967296. change (2 ^ 31) with 2147483648.
    f_equal; [|f_equal]; Z.div_mod_to_equations; lia.
Qed.

Lemma fromUint_compact_witness :
  exists n : Z,
    compact [0xFFFFFFFF; 0x001FFFFF] = Numeric (Js.Int n) /\
    fromUint n = [0xFFFFFFFF; 0x001FFFFF].
Proof. apply (fromUint_compact 0xFFFFFFFF 0x001FFFFF); lia. Defined.

(** X13: what the threshold [0x00200000] means.  On limbs below [2^32],
    [compact] hands the pair back exactly when the 64-bit value is [2^53]
    or more, and a number it returns is the value itself, at most
    [2^53 - 1]. *)
Theorem compact_keeps_unsafe_values (low high : Z) :
  0 <= low < 2 ^ 32 -> 0 <= high < 2 ^ 32 ->
  (2 ^ 53 <= high * 2 ^ 32 + low <-> compact [low; high] = Uint64 [low; high])
  /\
  (forall n : Js.number,
     compact [low; high] = Numeric n ->
     n = Js.Int (high * 2 ^ 32 + low) /\ high * 2 ^ 32 + low <= 2 ^ 53 - 1).
Proof.
  intros Hlow Hhigh. unfold compact. simpl.
  change (2 ^ 53) with 9007199254740992.
  change (2 ^ 32) with 4294967296 in *.
  destruct (Z.leb_spec 2097152 high) as [Hge|Hlt]; split.
  - split; [reflexivity | lia].
  - intros n [=].
  - split; [lia | intros [=]].
  - intros n [= <-]. split; [reflexivity | lia].
Qed.

Lemma compact_keeps_unsafe_values_witness :
  (2 ^ 53 <= 0x00200000 * 2 ^ 32 + 0
   <-> compact [0; 0x00200000] = Uint64 [0; 0x00200000])
  /\
  (forall n : Js.number,
     compact [0; 0x00200000] = Numeric n ->
     n = Js.Int (0x00200000 * 2 ^ 32 + 0)
     /\ 0x00200000 * 2 ^ 32 + 0 <= 2 ^ 53 - 1).
Proof. apply (compact_keeps_unsafe_values 0 0x00200000); lia. Defined.

(** X14: an array with fewer than two elements.  The missing limb reads as
    [undefined], the comparison with it is false and the arithmetic gives
    [NaN]: [compact] returns [NaN], neither a value nor the array. *)
Theorem compact_missing_limb (uint64 : list Z) :
  (length uint64 < 2)%nat -> compact uint64 = Numeric Js.NaN.
Proof.
  intros Hlen. destruct uint64 as [|low [|high rest]]; simpl in Hlen;
    [reflexivity | reflexivity | lia].
Qed.

Lemma compact_missing_limb_witness : compact [5] = Numeric Js.NaN.
Proof. apply (compact_missing_limb [5]). simpl. lia. Defined.

(** X15: the limbs [fromUint] returns are always 32-bit, for every integer
    input: the low limb is the input modulo [2^32]; for [0 <= input < 2^64]
    the limbs put together are the input, and a larger input loses what
    does not fit in the high limb. *)
Theorem fromUint_limbs_are_uint32 (number : Z) :
  exists low high : Z,
    fromUint number = [low; high] /\
    0 <= low < 2 ^ 32 /\ 0 <= high < 2 ^ 32 /\
    low = number mod 2 ^ 32 /\
    (0 <= number < 2 ^ 64 -> high * 2 ^ 32 + low = number) /\
    (0 <= number -> high = (number / 2 ^ 32) mod 2 ^ 32).
Proof.
  unfold fromUint. rewrite band_all_ones. unfold Js.shru, Js.div_pow2.
  change (Js.ToUint32 (Js.Int 0) mod 32) with 0. rewrite !Z.shiftr_0_r.
  rewrite ToInt32_centered. unfold Js.ToUint32.
  eexists _, _. split; [reflexivity|].
  change 0x100000000 with 4294967296.
  change (2 ^ 64) with 18446744073709551616.
  change (2 ^ 32) with 4294967296. change (2 ^ 31) with 2147483648.
  assert (Hlow : ((number + 2147483648) mod 4294967296 - 2147483648)
                 mod 4294967296 = number mod 4294967296)
    by (Z.div_mod_to_equations; lia).
  rewrite Hlow.
  split; [apply Z.mod_pos_bound; lia|].
  split; [apply Z.mod_pos_bound; lia|].
  split; [reflexivity|].
  split.
  - intros Hn. rewrite Z.quot_div_nonneg by lia.
    Z.div_mod_to_equations; lia.
  - intros Hn. rewrite Z.quot_div_nonneg by lia. reflexivity.
Qed.

Lemma fromUint_limbs_are_uint32_witness :
  exists low high : Z,
    fromUint (2 ^ 64 + 5) = [low; high] /\
    0 <= low < 2 ^ 32 /\ 0 <= high < 2 ^ 32 /\
    low = (2 ^ 64 + 5) mod 2 ^ 32 /\
    (0 <= 2 ^ 64 + 5 < 2 ^ 64 -> high * 2 ^ 32 + low = 2 ^ 64 + 5) /\
    (0 <= 2 ^ 64 + 5 -> high = ((2 ^ 64 + 5) / 2 ^ 32) mod 2 ^ 32).
Proof. exact (fromUint_limbs_are_uint32 (2 ^ 64 + 5)). Defined.

(** X16: 'a signed byte with the same binary representation'.  Whenever
    [uint8ToInt8] returns, the result lies in [[-128, 127]] and is congruent
    to the input modulo 256; and every signed byte [r] is the result for the
    unsigned byte [r mod 256]. *)
Theorem uint8ToInt8_same_bits (h : heap) :
  (forall v : Z,
     v <= 255 ->
     exists r : Z,
       run (uint8ToInt8 v) h = (Ok r, h) /\
       -128 <= r <= 127 /\ r mod 256 = v mod 256) /\
  (forall r : Z,
     -128 <= r <= 127 ->
     0 <= r mod 256 <= 255 /\ run (uint8ToInt8 (r mod 256)) h = (Ok r, h)).
Proof.
  split.
  - intros v Hv. unfold run, uint8ToInt8, throw, ret. change 0xFF with 255.
    destruct (Z.ltb_spec 255 v); [lia|].
    rewrite uint8ToInt8_value. eexists. split; [reflexivity|].
    Z.div_mod_to_equations; lia.
  - intros r Hr. split; [Z.div_mod_to_equations; lia|].
    unfold run, uint8ToInt8, throw, ret. change 0xFF with 255.
    destruct (Z.ltb_spec 255 (r mod 256)); [Z.div_mod_to_equations; lia|].
    rewrite uint8ToInt8_value. do 2 f_equal.
    Z.div_mod_to_equations; lia.
Qed.

Lemma uint8ToInt8_same_bits_witness :
  0 <= (-128) mod 256 <= 255 /\
  run (uint8ToInt8 ((-128) mod 256)) [] = (Ok (-128), []).
Proof. apply (proj2 (uint8ToInt8_same_bits []) (-128)). lia. Defined.

(** ** More on [getTransactionPaddingSize] *)



(** ** More on [getBytes] and [concatTypedArrays] *)

Lemma wf_view_old (h : heap) (buf : list byte) (a : Uint8Array) :
  wf_view h a -> wf_view (h ++ [buf]) a.
Proof.
  intros [Hl Hfit]. split.
  - rewrite length_app. simpl. lia.
  - rewrite buffer_bytes_old by assumption. assumption.
Qed.

Lemma wf_view_fresh (h : heap) (buf : list byte) :
  wf_view (h ++ [buf]) (mkUint8Array (length h) 0 (length buf)).
Proof.
  split; simpl.
  - rewrite length_app. simpl. lia.
  - rewrite buffer_bytes_fresh. lia.
Qed.

Lemma view_bytes_fresh (h : heap) (buf : list byte) :
  view_bytes (h ++ [buf]) (mkUint8Array (length h) 0 (length buf)) = buf.
Proof.
  unfold view_bytes. simpl. rewrite buffer_bytes_fresh, drop_0.
  apply take_ge. lia.
Qed.

(** [getBytes] for any size that is not above the length: a negative size
    counts from the end, as [slice] has it. *)
Lemma run_getBytes_slice (h : heap) (binary : Uint8Array) (size : Z) :
  wf_view h binary -> size <= Z.of_nat (u8_length binary) ->
  run (getBytes binary size) h
  = (Ok (mkUint8Array (length h) 0
           (Z.to_nat (if size <? 0 then Z.of_nat (u8_length binary) + size
                      else size))),
     h ++ [take (Z.to_nat (if size <? 0
                           then Z.of_nat (u8_length binary) + size
                           else size))
             (view_bytes h binary)]).
Proof.
  intros Hwf Hsize.
  pose proof (length_view_bytes h binary Hwf) as Hlen.
  unfold getBytes.
  destruct (Z.ltb_spec (Z.of_nat (u8_length binary)) size); [lia|].
  rewrite run_bind. unfold u8_slice. change (0 <? 0) with false. cbv iota.
  rewrite (Z.min_l 0), Z.sub_0_r by lia.
  set (n := Z.to_nat (if size <? 0 then Z.of_nat (u8_length binary) + size
                      else size)).
  assert (Hn : (n <= u8_length binary)%nat)
    by (unfold n; destruct (Z.ltb_spec size 0); lia).
  set (e := if size <? 0 then Z.max (Z.of_nat (u8_length binary) + size) 0
            else Z.min size (Z.of_nat (u8_length binary))).
  assert (He : Z.to_nat (Z.max e 0) = n)
    by (unfold e, n; destruct (Z.ltb_spec size 0); lia).
  rewrite run_get_heap, run_bind, run_new_Uint8Array by lia.
  rewrite run_bind, run_write_view_fresh.
  unfold run, ret. rewrite He.
  change (Z.to_nat 0) with 0%nat. rewrite take_0, drop_0. cbn [app Nat.add].
  rewrite drop_ge by (rewrite length_take, length_replicate; lia).
  rewrite app_nil_r. reflexivity.
Qed.

(** X18: the only size [getBytes] rejects is one above the length, with a
    [RangeError] and the heap untouched.  A negative size is not rejected:
    [slice(0, size)] counts it from the end, so the call returns a fresh
    array with all but the last [-size] bytes (none when [-size] exceeds
    the length). *)
Theorem getBytes_outside_range (h : heap) (binary : Uint8Array) (size : Z) :
  wf_view h binary ->
  (Z.of_nat (u8_length binary) < size ->
   run (getBytes binary size) h = (Throw RangeError, h)) /\
  (size < 0 ->
   run (getBytes binary size) h
   = (Ok (mkUint8Array (length h) 0
            (u8_length binary - Z.to_nat (- size))),
      h ++ [take (u8_length binary - Z.to_nat (- size))
              (view_bytes h binary)])).
Proof.
  intros Hwf. split.
  - intros Hbig. unfold getBytes.
    destruct (Z.ltb_spec (Z.of_nat (u8_length binary)) size); [reflexivity|lia].
  - intros Hneg. rewrite run_getBytes_slice by (assumption || lia).
    destruct (Z.ltb_spec size 0); [|lia].
    replace (Z.to_nat (Z.of_nat (u8_length binary) + size))
      with (u8_length binary - Z.to_nat (- size))%nat by lia.
    reflexivity.
Qed.

Lemma getBytes_outside_range_witness :
  (Z.of_nat (u8_length (mkUint8Array 0 0 3)) < -1 ->
   run (getBytes (mkUint8Array 0 0 3) (-1)) [[x01; x02; x03]]
   = (Throw RangeError, [[x01; x02; x03]])) /\
  (-1 < 0 ->
   run (getBytes (mkUint8Array 0 0 3) (-1)) [[x01; x02; x03]]
   = (Ok (mkUint8Array (length [[x01; x02; x03]]) 0
            (u8_length (mkUint8Array 0 0 3) - Z.to_nat (- -1))),
      [[x01; x02; x03]]
        ++ [take (u8_length (mkUint8Array 0 0 3) - Z.to_nat (- -1))
              (view_bytes [[x01; x02; x03]] (mkUint8Array 0 0 3))])).
Proof.
  apply (getBytes_outside_range [[x01; x02; x03]] (mkUint8Array 0 0 3) (-1)).
  split; simpl; lia.
Defined.

(** What [concatTypedArrays] leaves in the heap, for use below. *)
Lemma run_concat_fresh (h : heap) (array1 array2 : Uint8Array) :
  wf_view h array1 -> wf_view h array2 ->
  run (concatTypedArrays array1 array2) h
  = (Ok (mkUint8Array (length h) 0
           (length (view_bytes h array1 ++ view_bytes h array2))),
     h ++ [view_bytes h array1 ++ view_bytes h array2]).
Proof.
  intros Hwf1 Hwf2.
  pose proof (length_view_bytes h array1 Hwf1) as Hlen1.
  pose proof (length_view_bytes h array2 Hwf2) as Hlen2.
  destruct Hwf1 as [Hl1 _], Hwf2 as [Hl2 _].
  unfold concatTypedArrays.
  rewrite run_bind, run_new_Uint8Array, Nat2Z.id by lia.
  rewrite run_bind, run_u8_set_from_fresh by (assumption || lia).
  rewrite run_bind, run_u8_set_from_fresh by (assumption || lia).
  unfold run, ret. rewrite length_app, Hlen1, Hlen2, !take_0.
  cbn [Nat.add app].
  rewrite take_app_length' by lia.
  rewrite drop_ge by (rewrite length_app, length_drop, length_replicate; lia).
  rewrite app_nil_r. reflexivity.
Qed.

(** X19: the prefix of a concatenation.  Taking the first [array1.length]
    bytes of [concatTypedArrays(array1, array2)] gives a fresh array with
    the bytes of [array1]. *)
Theorem getBytes_concatTypedArrays (h : heap) (array1 array2 : Uint8Array) :
  wf_view h array1 -> wf_view h array2 ->
  exists (prefix : Uint8Array) (h' : heap),
    run (let* both := concatTypedArrays array1 array2 in
         getBytes both (Z.of_nat (u8_length array1))) h
      = (Ok prefix, h') /\
    view_bytes h' prefix = view_bytes h array1 /\
    view_bytes h' array1 = view_bytes h array1 /\
    view_bytes h' array2 = view_bytes h array2.
Proof.
  intros Hwf1 Hwf2.
  pose proof (length_view_bytes h array1 Hwf1) as Hlen1.
  set (v1 := view_bytes h array1) in *. set (v2 := view_bytes h array2).
  eexists _, _.
  rewrite run_bind, run_concat_fresh by assumption. fold v1 v2.
  rewrite run_getBytes_slice;
    [| apply wf_view_fresh | simpl; rewrite length_app; lia].
  destruct (Z.ltb_spec (Z.of_nat (u8_length array1)) 0); [lia|].
  rewrite Nat2Z.id, view_bytes_fresh.
  rewrite take_app_length' by lia.
  split; [reflexivity|].
  split; [|split].
  - rewrite <- Hlen1 at 1. apply view_bytes_fresh.
  - rewrite !view_bytes_old; [reflexivity | apply Hwf1 |].
    rewrite length_app; simpl. destruct Hwf1; lia.
  - rewrite !view_bytes_old; [reflexivity | apply Hwf2 |].
    rewrite length_app; simpl. destruct Hwf2; lia.
Qed.

Lemma getBytes_concatTypedArrays_witness :
  exists (prefix : Uint8Array) (h' : heap),
    run (let* both := concatTypedArrays (mkUint8Array 0 0 2)
                        (mkUint8Array 1 0 1) in
         getBytes both (Z.of_nat (u8_length (mkUint8Array 0 0 2))))
        [[x01; x02]; [x03]]
      = (Ok prefix, h') /\
    view_bytes h' prefix = view_bytes [[x01; x02]; [x03]] (mkUint8Array 0 0 2)
    /\
    view_bytes h' (mkUint8Array 0 0 2)
      = view_bytes [[x01; x02]; [x03]] (mkUint8Array 0 0 2) /\
    view_bytes h' (mkUint8Array 1 0 1)
      = view_bytes [[x01; x02]; [x03]] (mkUint8Array 1 0 1).
Proof.
  apply (getBytes_concatTypedArrays [[x01; x02]; [x03]]
           (mkUint8Array 0 0 2) (mkUint8Array 1 0 1));
    split; simpl; lia.
Defined.

(** X20: concatenation is associative on the bytes.  Concatenating three
    arrays either way gives arrays that show the same bytes: those of the
    first, then the second, then the third. *)
Theorem concatTypedArrays_assoc (h : heap) (a1 a2 a3 : Uint8Array) :
  wf_view h a1 -> wf_view h a2 -> wf_view h a3 ->
  exists (l r : Uint8Array) (hl hr : heap),
    run (let* a12 := concatTypedArrays a1 a2 in concatTypedArrays a12 a3) h
      = (Ok l, hl) /\
    run (let* a23 := concatTypedArrays a2 a3 in concatTypedArrays a1 a23) h
      = (Ok r, hr) /\
    view_bytes hl l = view_bytes h a1 ++ view_bytes h a2 ++ view_bytes h a3 /\
    view_bytes hr r = view_bytes h a1 ++ view_bytes h a2 ++ view_bytes h a3.
Proof.
  intros Hwf1 Hwf2 Hwf3.
  eexists _, _, _, _.
  rewrite !run_bind.
  rewrite (run_concat_fresh h a1 a2), (run_concat_fresh h a2 a3)
    by assumption.
  rewrite !run_concat_fresh
    by (apply wf_view_fresh || (apply wf_view_old; assumption)).
  split; [reflexivity|]. split; [reflexivity|].
  rewrite !view_bytes_fresh.
  rewrite (view_bytes_old h _ a3) by apply Hwf3.
  rewrite (view_bytes_old h _ a1) by apply Hwf1.
  split; [symmetry; apply app_assoc | reflexivity].
Qed.

Lemma concatTypedArrays_assoc_witness :
  exists (l r : Uint8Array) (hl hr : heap),
    run (let* a12 := concatTypedArrays (mkUint8Array 0 0 1)
                       (mkUint8Array 0 1 1) in
         concatTypedArrays a12 (mkUint8Array 0 2 1)) [[x01; x02; x03]]
      = (Ok l, hl) /\
    run (let* a23 := concatTypedArrays (mkUint8Array 0 1 1)
                       (mkUint8Array 0 2 1) in
         concatTypedArrays (mkUint8Array 0 0 1) a23) [[x01; x02; x03]]
      = (Ok r, hr) /\
    view_bytes hl l
      = view_bytes [[x01; x02; x03]] (mkUint8Array 0 0 1)
        ++ view_bytes [[x01; x02; x03]] (mkUint8Array 0 1 1)
        ++ view_bytes [[x01; x02; x03]] (mkUint8Array 0 2 1) /\
    view_bytes hr r
      = view_bytes [[x01; x02; x03]] (mkUint8Array 0 0 1)
        ++ view_bytes [[x01; x02; x03]] (mkUint8Array 0 1 1)
        ++ view_bytes [[x01; x02; x03]] (mkUint8Array 0 2 1).
Proof.
  apply (concatTypedArrays_assoc [[x01; x02; x03]]
           (mkUint8Array 0 0 1) (mkUint8Array 0 1 1) (mkUint8Array 0 2 1));
    split; simpl; lia.
Defined.

(** ** More on [bufferToBigInt] *)

Lemma write_view_heap (h : heap) (a : Uint8Array) (bs : list byte) :
  snd (run (write_view a bs) h)
  = <[u8_buffer a :=
        take (u8_byteOffset a) (buffer_bytes h (u8_buffer a)) ++ bs
        ++ drop (u8_byteOffset a + length bs) (buffer_bytes h (u8_buffer a))]>
      h.
Proof. reflexivity. Qed.

(** For an array of eight bytes the heap [bufferToBigInt] leaves is the one
    [reverse] leaves, whether [BigInt] accepts the digits or not. *)
Lemma bufferToBigInt_heap (h : heap) (input : Uint8Array) :
  wf_view h input -> u8_length input = 8%nat ->
  snd (run (bufferToBigInt input) h) = snd (run (u8_reverse input) h).
Proof.
  intros Hwf H8.
  destruct (run_bufferToBigInt h input Hwf H8) as [_ ->].
  unfold BigInt. destruct (StringToBigInt _); reflexivity.
Qed.

Lemma wf_view_reverse (h : heap) (a : Uint8Array) :
  wf_view h a -> wf_view (snd (run (u8_reverse a) h)) a.
Proof.
  intros Hwf. pose proof (length_view_bytes h a Hwf) as Hlen.
  destruct Hwf as [Hl Hfit].
  rewrite run_u8_reverse. cbn [snd]. rewrite write_view_heap.
  split.
  - rewrite length_insert. assumption.
  - rewrite buffer_bytes_insert by assumption.
    rewrite !length_app, length_take, length_drop, length_rev. lia.
Qed.

(** X21: a second call undoes what the first did to the array.  After two
    calls of [bufferToBigInt] on an array of eight bytes the array shows
    its bytes in the original order again. *)
Theorem bufferToBigInt_twice_restores (h : heap) (input : Uint8Array) :
  wf_view h input -> u8_length input = 8%nat ->
  view_bytes
    (snd (run (bufferToBigInt input) (snd (run (bufferToBigInt input) h))))
    input
  = view_bytes h input.
Proof.
  intros Hwf H8.
  rewrite (bufferToBigInt_heap h) by assumption.
  pose proof (wf_view_reverse h input Hwf) as Hwf'.
  rewrite bufferToBigInt_heap by assumption.
  destruct (run_bufferToBigInt _ input Hwf' H8) as [-> _].
  destruct (run_bufferToBigInt h input Hwf H8) as [-> _].
  apply rev_involutive.
Qed.

Lemma bufferToBigInt_twice_restores_witness :
  view_bytes
    (snd (run (bufferToBigInt (mkUint8Array 0 1 8))
            (snd (run (bufferToBigInt (mkUint8Array 0 1 8))
                    [[x00; x01; x02; x03; x04; x05; x06; x07; x08; x09]]))))
    (mkUint8Array 0 1 8)
  = view_bytes [[x00; x01; x02; x03; x04; x05; x06; x07; x08; x09]]
      (mkUint8Array 0 1 8).
Proof.
  apply (bufferToBigInt_twice_restores
           [[x00; x01; x02; x03; x04; x05; x06; x07; x08; x09]]
           (mkUint8Array 0 1 8)).
  - split; simpl; lia.
  - reflexivity.
Defined.

(** X22: what [bufferToBigInt] writes stays inside the array it is given.
    The heap keeps its buffers, every other buffer keeps its bytes, and in
    the buffer of the array the bytes before and after the eight bytes of
    the array are unchanged. *)
Theorem bufferToBigInt_writes_inside (h : heap) (input : Uint8Array) :
  wf_view h input -> u8_length input = 8%nat ->
  length (snd (run (bufferToBigInt input) h)) = length h /\
  (forall l : loc,
     l <> u8_buffer input ->
     buffer_bytes (snd (run (bufferToBigInt input) h)) l = buffer_bytes h l) /\
  length (buffer_bytes (snd (run (bufferToBigInt input) h)) (u8_buffer input))
    = length (buffer_bytes h (u8_buffer input)) /\
  take (u8_byteOffset input)
    (buffer_bytes (snd (run (bufferToBigInt input) h)) (u8_buffer input))
    = take (u8_byteOffset input) (buffer_bytes h (u8_buffer input)) /\
  drop (u8_byteOffset input + 8)
    (buffer_bytes (snd (run (bufferToBigInt input) h)) (u8_buffer input))
    = drop (u8_byteOffset input + 8) (buffer_bytes h (u8_buffer input)).
Proof.
  intros Hwf H8. pose proof (length_view_bytes h input Hwf) as Hlen.
  rewrite bufferToBigInt_heap by assumption.
  destruct Hwf as [Hl Hfit]. rewrite H8 in *.
  rewrite run_u8_reverse. cbn [snd]. rewrite write_view_heap.
  set (buf := buffer_bytes h (u8_buffer input)) in *.
  set (v := view_bytes h input) in *.
  assert (Hrev : length (rev v) = 8%nat) by (rewrite length_rev; exact Hlen).
  rewrite Hrev.
  split; [apply length_insert|].
  split; [intros l Hne; apply buffer_bytes_insert_ne; congruence|].
  rewrite buffer_bytes_insert by assumption.
  split; [|split].
  - rewrite !length_app, length_take, length_drop, Hrev. lia.
  - rewrite take_app_length' by (rewrite length_take; lia).
    reflexivity.
  - rewrite app_assoc.
    rewrite drop_app_length'
      by (rewrite length_app, length_take, Hrev; lia).
    reflexivity.
Qed.

Lemma bufferToBigInt_writes_inside_witness :
  length (snd (run (bufferToBigInt (mkUint8Array 1 1 8))
                 [[xaa]; [x00; x01; x02; x03; x04; x05; x06; x07; x08; x09]]))
  = length [[xaa]; [x00; x01; x02; x03; x04; x05; x06; x07; x08; x09]] /\
  (forall l : loc,
     l <> u8_buffer (mkUint8Array 1 1 8) ->
     buffer_bytes
       (snd (run (bufferToBigInt (mkUint8Array 1 1 8))
               [[xaa]; [x00; x01; x02; x03; x04; x05; x06; x07; x08; x09]])) l
     = buffer_bytes
         [[xaa]; [x00; x01; x02; x03; x04; x05; x06; x07; x08; x09]] l) /\
  length
    (buffer_bytes
       (snd (run (bufferToBigInt (mkUint8Array 1 1 8))
               [[xaa]; [x00; x01; x02; x03; x04; x05; x06; x07; x08; x09]]))
       (u8_buffer (mkUint8Array 1 1 8)))
  = length
      (buffer_bytes
         [[xaa]; [x00; x01; x02; x03; x04; x05; x06; x07; x08; x09]]
         (u8_buffer (mkUint8Array 1 1 8))) /\
  take (u8_byteOffset (mkUint8Array 1 1 8))
    (buffer_bytes
       (snd (run (bufferToBigInt (mkUint8Array 1 1 8))
               [[xaa]; [x00; x01; x02; x03; x04; x05; x06; x07; x08; x09]]))
       (u8_buffer (mkUint8Array 1 1 8)))
  = take (u8_byteOffset (mkUint8Array 1 1 8))
      (buffer_bytes
         [[xaa]; [x00; x01; x02; x03; x04; x05; x06; x07; x08; x09]]
         (u8_buffer (mkUint8Array 1 1 8))) /\
  drop (u8_byteOffset (mkUint8Array 1 1 8) + 8)
    (buffer_bytes
       (snd (run (bufferToBigInt (mkUint8Array 1 1 8))
               [[xaa]; [x00; x01; x02; x03; x04; x05; x06; x07; x08; x09]]))
       (u8_buffer (mkUint8Array 1 1 8)))
  = drop (u8_byteOffset (mkUint8Array 1 1 8) + 8)
      (buffer_bytes
         [[xaa]; [x00; x01; x02; x03; x04; x05; x06; x07; x08; x09]]
         (u8_buffer (mkUint8Array 1 1 8))).
Proof.
  apply (bufferToBigInt_writes_inside
           [[xaa]; [x00; x01; x02; x03; x04; x05; x06; x07; x08; x09]]
           (mkUint8Array 1 1 8)).
  - split; simpl; lia.
  - reflexivity.
Defined.

Lemma append_nibbles_app (s : string) (byte : Z) :
  append_nibbles s byte = (s ++ append_nibbles EmptyString byte)%string.
Proof.
  unfold append_nibbles. simpl. apply string_app_assoc.
Qed.

Lemma fold_append_nibbles_app (l : list Z) (s : string) :
  fold_left append_nibbles l s
  = (s ++ fold_left append_nibbles l EmptyString)%string.
Proof.
  revert s; induction l as [|x l IH]; intros s.
  - simpl. symmetry. apply string_app_nil_r.
  - cbn [fold_left]. rewrite IH, (IH (append_nibbles EmptyString x)).
    rewrite (append_nibbles_app s). apply string_app_assoc.
Qed.

(** Reading the two characters of a byte in a radix: they are digits of
    the radix when both nibbles are below it. *)
Lemma append_nibbles_parse_radix (radix : Z) (b : byte) (s : string) (acc : Z) :
  parse_digits radix (append_nibbles s (byte_val b)) acc =
    match parse_digits radix s acc with
    | Some a =>
        if nibbles_below radix b
        then Some ((a * radix + byte_val b / 16) * radix + byte_val b mod 16)
        else None
    | None => None
    end.
Proof.
  unfold append_nibbles, nibbles_below.
  destruct (nibble_chars b) as (c1 & c2 & -> & -> & D1 & D2).
  rewrite !parse_digits_app.
  destruct (parse_digits radix s acc) as [a|]; [|reflexivity].
  simpl. rewrite D1.
  destruct (byte_val b / 16 <? radix); [|reflexivity].
  rewrite D2. simpl.
  destruct (byte_val b mod 16 <? radix); reflexivity.
Qed.

Lemma fold_append_nibbles_parse_radix (radix : Z) (bs : list byte)
    (s : string) (acc : Z) :
  parse_digits radix (fold_left append_nibbles (byte_val <$> bs) s) acc =
    match parse_digits radix s acc with
    | Some a =>
        if forallb (nibbles_below radix) bs
        then Some (nibbles_value radix bs a)
        else None
    | None => None
    end.
Proof.
  revert s; induction bs as [|b bs IH]; intros s.
  - simpl. destruct (parse_digits radix s acc); reflexivity.
  - cbn [fmap list_fmap fold_left forallb].
    rewrite IH, append_nibbles_parse_radix.
    destruct (parse_digits radix s acc); [|reflexivity].
    destruct (nibbles_below radix b); reflexivity.
Qed.

(** How [StringToBigInt] takes a string that starts with the two
    characters of a byte: [0B] announces binary digits, anything else is
    read as a decimal literal. *)
Lemma StringToBigInt_first_byte (b : byte) (t : string) :
  StringToBigInt (append_nibbles EmptyString (byte_val b) ++ t) =
    if Byte.eqb b x0b then parse_nonempty 2 t
    else parse_digits 10 (append_nibbles EmptyString (byte_val b) ++ t) 0.
Proof. destruct b; reflexivity. Qed.

(** What [StringToBigInt] makes of the digits of eight bytes. *)
Lemma StringToBigInt_nibbles (b7 : byte) (rest : list byte) :
  length rest = 7%nat ->
  StringToBigInt
    (fold_left append_nibbles (byte_val <$> b7 :: rest) EmptyString) =
    if Byte.eqb b7 x0b then
      if forallb (nibbles_below 2) rest
      then Some (nibbles_value 2 rest 0) else None
    else
      if forallb (nibbles_below 10) (b7 :: rest)
      then Some (nibbles_value 10 (b7 :: rest) 0) else None.
Proof.
  intros Hrest.
  pose proof (fold_append_nibbles_parse_radix 10 (b7 :: rest) EmptyString 0)
    as H10.
  simpl parse_digits in H10.
  cbn [fmap list_fmap fold_left] in *.
  rewrite fold_append_nibbles_app in *.
  rewrite StringToBigInt_first_byte.
  destruct (Byte.eqb b7 x0b); [|exact H10].
  pose proof (fold_append_nibbles_parse_radix 2 rest EmptyString 0) as H2.
  simpl parse_digits in H2. rewrite <- H2.
  destruct rest as [|b6 rest']; [discriminate Hrest|].
  cbn [fmap list_fmap fold_left].
  rewrite fold_append_nibbles_app.
  destruct (nibble_chars b6) as (c1 & c2 & E1 & E2 & _).
  unfold append_nibbles at 1 3. rewrite E1, E2. reflexivity.
Qed.

(** X23: what [bufferToBigInt] returns on eight bytes, in full.  Let the
    bytes in reverse order be [b7] followed by [rest].  If [b7] is [0x0B]
    the digits start with [0B]: the nibbles of [rest] are read in base 2
    when they are all 0 or 1.  Otherwise the nibbles of all eight bytes
    are read in base 10 when they are all at most 9.  In every other case
    the call throws a [SyntaxError]. *)
Theorem bufferToBigInt_result (h : heap) (input : Uint8Array)
    (b7 : byte) (rest : list byte) :
  wf_view h input -> u8_length input = 8%nat ->
  rev (view_bytes h input) = b7 :: rest ->
  fst (run (bufferToBigInt input) h) =
    if Byte.eqb b7 x0b then
      if forallb (nibbles_below 2) rest
      then Ok (nibbles_value 2 rest 0) else Throw SyntaxError
    else
      if forallb (nibbles_below 10) (b7 :: rest)
      then Ok (nibbles_value 10 (b7 :: rest) 0) else Throw SyntaxError.
Proof.
  intros Hwf H8 Hrev.
  pose proof (length_view_bytes h input Hwf) as Hlen.
  assert (Hrest : length rest = 7%nat).
  { apply (f_equal (@length byte)) in Hrev.
    rewrite length_rev, Hlen, H8 in Hrev. simpl in Hrev. lia. }
  destruct (run_bufferToBigInt h input Hwf H8) as [_ ->].
  rewrite Hrev. unfold BigInt.
  rewrite (StringToBigInt_nibbles b7 rest Hrest).
  destruct (Byte.eqb b7 x0b).
  - destruct (forallb (nibbles_below 2) rest); reflexivity.
  - destruct (forallb (nibbles_below 10) (b7 :: rest)); reflexivity.
Qed.

Lemma bufferToBigInt_result_witness :
  fst (run (bufferToBigInt (mkUint8Array 0 0 8))
         [[x78; x56; x34; x12; x00; x00; x00; x99]]) =
    if Byte.eqb x99 x0b then
      if forallb (nibbles_below 2) [x00; x00; x00; x12; x34; x56; x78]
      then Ok (nibbles_value 2 [x00; x00; x00; x12; x34; x56; x78] 0)
      else Throw SyntaxError
    else
      if forallb (nibbles_below 10)
           (x99 :: [x00; x00; x00; x12; x34; x56; x78])
      then Ok (nibbles_value 10
                 (x99 :: [x00; x00; x00; x12; x34; x56; x78]) 0)
      else Throw SyntaxError.
Proof.
  apply (bufferToBigInt_result [[x78; x56; x34; x12; x00; x00; x00; x99]]
           (mkUint8Array 0 0 8) x99 [x00; x00; x00; x12; x34; x56; x78]).
  - split; simpl; lia.
  - reflexivity.
  - reflexivity.
Defined.

Lemma nibbles_below_true (radix : Z) (b : byte) :
  nibbles_below radix b = true ->
  byte_val b / 16 < radix /\ byte_val b mod 16 < radix.
Proof.
  unfold nibbles_below. intros H.
  apply andb_true_iff in H as [H1 H2].
  apply Z.ltb_lt in H1. apply Z.ltb_lt in H2. split; assumption.
Qed.

Lemma byte_val_zero (b : byte) : byte_val b = 0 -> b = x00.
Proof.
  intros H. rewrite <- (byte_of_byte_val b), H. reflexivity.
Qed.

Lemma Ok_inj {A} (a b : A) : Ok a = Ok b -> a = b.
Proof. intros H. congruence. Qed.

Lemma nibble_split (b : byte) :
  exists hi lo : Z,
    byte_val b / 16 = hi /\ byte_val b mod 16 = lo /\
    byte_val b = 16 * hi + lo /\ 0 <= hi < 16 /\ 0 <= lo < 16.
Proof.
  pose proof (byte_val_range b).
  exists (byte_val b / 16), (byte_val b mod 16).
  repeat split; try reflexivity; Z.div_mod_to_equations; lia.
Qed.

(** X24: when the result is the value of the input.  [bufferToBigInt]
    returns the little-endian value of its eight bytes exactly when the
    bytes are one byte of at most 9 followed by seven zero bytes: only then
    do the decimal and the hexadecimal reading of the digits agree. *)
Theorem bufferToBigInt_right_only_below_ten (h : heap) (input : Uint8Array) :
  wf_view h input -> u8_length input = 8%nat ->
  fst (run (bufferToBigInt input) h) = Ok (raw_value (view_bytes h input))
  <->
  exists d : byte,
    byte_val d <= 9 /\
    view_bytes h input = [d; x00; x00; x00; x00; x00; x00; x00].
Proof.
  intros Hwf H8.
  pose proof (length_view_bytes h input Hwf) as Hlen. rewrite H8 in Hlen.
  destruct (run_bufferToBigInt h input Hwf H8) as [_ ->].
  destruct (view_bytes h input)
    as [|b0 [|b1 [|b2 [|b3 [|b4 [|b5 [|b6 [|b7 [|? ?]]]]]]]]];
    try discriminate Hlen.
  clear Hlen. unfold BigInt. cbn [rev app].
  rewrite (StringToBigInt_nibbles b7 [b6; b5; b4; b3; b2; b1; b0] eq_refl).
  destruct (nibble_split b0) as (h0 & l0 & Eh0 & El0 & E0 & ? & ?).
  destruct (nibble_split b1) as (h1 & l1 & Eh1 & El1 & E1 & ? & ?).
  destruct (nibble_split b2) as (h2 & l2 & Eh2 & El2 & E2 & ? & ?).
  destruct (nibble_split b3) as (h3 & l3 & Eh3 & El3 & E3 & ? & ?).
  destruct (nibble_split b4) as (h4 & l4 & Eh4 & El4 & E4 & ? & ?).
  destruct (nibble_split b5) as (h5 & l5 & Eh5 & El5 & E5 & ? & ?).
  destruct (nibble_split b6) as (h6 & l6 & Eh6 & El6 & E6 & ? & ?).
  destruct (nibble_split b7) as (h7 & l7 & Eh7 & El7 & E7 & ? & ?).
  split.
  - intros Hrun.
    destruct (Byte.eqb b7 x0b) eqn:B7.
    + exfalso.
      apply Byte.byte_dec_bl in B7. subst b7.
      destruct (forallb (nibbles_below 2) [b6; b5; b4; b3; b2; b1; b0]) eqn:F;
        [|discriminate Hrun].
      cbn [forallb] in F. rewrite !andb_true_iff in F.
      destruct F as (F6 & F5 & F4 & F3 & F2 & F1 & F0 & _).
      apply nibbles_below_true in F0, F1, F2, F3, F4, F5, F6.
      apply Ok_inj in Hrun. revert Hrun.
      unfold nibbles_value. cbn [fold_left raw_value].
      change (byte_val x0b) with 11.
      rewrite Eh0, El0, Eh1, El1, Eh2, El2, Eh3, El3, Eh4, El4, Eh5, El5,
        Eh6, El6 in *.
      rewrite E0, E1, E2, E3, E4, E5, E6. lia.
    + destruct (forallb (nibbles_below 10)
                  [b7; b6; b5; b4; b3; b2; b1; b0]) eqn:F;
        [|discriminate Hrun].
      cbn [forallb] in F. rewrite !andb_true_iff in F.
      destruct F as (F7 & F6 & F5 & F4 & F3 & F2 & F1 & F0 & _).
      apply nibbles_below_true in F0, F1, F2, F3, F4, F5, F6, F7.
      apply Ok_inj in Hrun. revert Hrun.
      unfold nibbles_value. cbn [fold_left raw_value].
      rewrite Eh0, El0, Eh1, El1, Eh2, El2, Eh3, El3, Eh4, El4, Eh5, El5,
        Eh6, El6, Eh7, El7 in *.
      rewrite E0, E1, E2, E3, E4, E5, E6, E7. intros Hrun.
      assert (Hz : h0 = 0 /\ h1 = 0 /\ l1 = 0 /\ h2 = 0 /\ l2 = 0 /\
                   h3 = 0 /\ l3 = 0 /\ h4 = 0 /\ l4 = 0 /\ h5 = 0 /\
                   l5 = 0 /\ h6 = 0 /\ l6 = 0 /\ h7 = 0 /\ l7 = 0) by lia.
      exists b0. split; [lia|].
      rewrite (byte_val_zero b1), (byte_val_zero b2), (byte_val_zero b3),
        (byte_val_zero b4), (byte_val_zero b5), (byte_val_zero b6),
        (byte_val_zero b7) by lia.
      reflexivity.
  - intros (d & Hd & [= <- -> -> -> -> -> -> ->]).
    change (Byte.eqb x00 x0b) with false. cbv iota.
    cbn [forallb]. change (nibbles_below 10 x00) with true.
    cbn [andb]. unfold nibbles_below. rewrite Eh0, El0.
    destruct (Z.ltb_spec h0 10); [|lia].
    destruct (Z.ltb_spec l0 10); [|lia].
    cbn [andb]. unfold run, ret. cbn [fst]. f_equal.
    unfold nibbles_value. cbn [fold_left raw_value].
    change (byte_val x00) with 0. change (0 / 16) with 0.
    change (0 mod 16) with 0.
    rewrite Eh0, El0, E0. lia.
Qed.

Lemma bufferToBigInt_right_only_below_ten_witness :
  fst (run (bufferToBigInt (mkUint8Array 0 0 8))
         [[x09; x00; x00; x00; x00; x00; x00; x00]])
  = Ok (raw_value
          (view_bytes [[x09; x00; x00; x00; x00; x00; x00; x00]]
             (mkUint8Array 0 0 8))).
Proof.
  apply (bufferToBigInt_right_only_below_ten
           [[x09; x00; x00; x00; x00; x00; x00; x00]] (mkUint8Array 0 0 8)).
  - split; simpl; lia.
  - reflexivity.
  - exists x09. split; [change (9 <= 9); lia | reflexivity].
Defined.

(** ** More on [bigIntToBuffer] *)

(** [to_hex_aux] writes exactly [k] digits for a number of [k] digits. *)
Lemma to_hex_aux_exact (fuel : nat) :
  forall (n : Z) (acc : string) (k : nat),
    (1 <= k <= S fuel)%nat ->
    16 ^ (Z.of_nat k - 1) <= n < 16 ^ Z.of_nat k ->
    to_hex_aux fuel n acc = (fixed_hex k n ++ acc)%string.
Proof.
  induction fuel as [|fuel IH]; intros n acc k Hk Hn.
  - assert (k = 1%nat) as -> by lia. reflexivity.
  - cbn [to_hex_aux].
    destruct k as [|[|k]]; [lia | |].
    + change (16 ^ Z.of_nat 1) with 16 in Hn.
      destruct (Z.eqb_spec (n / 16) 0) as [E|E]; [reflexivity|].
      Z.div_mod_to_equations; lia.
    + assert (Hpow : 16 ^ Z.of_nat (S (S k)) = 16 * 16 ^ Z.of_nat (S k))
        by (rewrite (Nat2Z.inj_succ (S k)), Z.pow_succ_r by lia; reflexivity).
      assert (Hpow' : 16 ^ (Z.of_nat (S (S k)) - 1)
                      = 16 * 16 ^ (Z.of_nat (S k) - 1)).
      { replace (Z.of_nat (S (S k)) - 1) with (Z.succ (Z.of_nat (S k) - 1))
          by lia.
        rewrite Z.pow_succ_r by lia. reflexivity. }
      rewrite Hpow, Hpow' in Hn.
      assert (Hpos : 0 < 16 ^ (Z.of_nat (S k) - 1))
        by (apply Z.pow_pos_nonneg; lia).
      destruct (Z.eqb_spec (n / 16) 0) as [E|E];
        [Z.div_mod_to_equations; lia|].
      rewrite (IH (n / 16) _ (S k)).
      * cbn [fixed_hex]. rewrite !string_app_assoc. reflexivity.
      * lia.
      * Z.div_mod_to_equations; lia.
Qed.

(** [toString(16)] on a positive number of exactly [k] digits. *)
Lemma BigInt_toString16_exact (n : Z) (k : nat) :
  (1 <= k)%nat ->
  16 ^ (Z.of_nat k - 1) <= n < 16 ^ Z.of_nat k ->
  BigInt_toString16 n = fixed_hex k n.
Proof.
  intros Hk Hn.
  assert (Hpos : 0 < 16 ^ (Z.of_nat k - 1)) by (apply Z.pow_pos_nonneg; lia).
  unfold BigInt_toString16.
  destruct (Z.ltb_spec n 0); [lia|].
  rewrite (to_hex_aux_exact _ n EmptyString k);
    [apply string_app_nil_r | | assumption].
  split; [assumption|].
  assert (Hlog : Z.of_nat k - 1 <= Z.log2 n).
  { apply Z.log2_le_pow2; [lia|].
    transitivity (16 ^ (Z.of_nat k - 1)); [|lia].
    apply Z.pow_le_mono_l. lia. }
  pose proof (Z.log2_nonneg n). lia.
Qed.

Lemma padStart_long (n : nat) (c : ascii) (s : string) :
  (n <= String.length s)%nat -> padStart n c s = s.
Proof.
  intros Hlen. unfold padStart.
  replace (n - String.length s)%nat with 0%nat by lia. reflexivity.
Qed.

Lemma pow_256_16 (k : nat) : 256 ^ Z.of_nat k = 16 ^ Z.of_nat (2 * k).
Proof.
  rewrite Nat2Z.inj_mul, Z.pow_mul_r by lia. reflexivity.
Qed.

Lemma slice2_hex_of_bytes_tail (done rest : list byte) (b : byte)
    (tail : string) :
  slice2 (hex_of_bytes (done ++ b :: rest) ++ tail) (2 * length done)
  = hex_pair b.
Proof.
  unfold slice2. induction done as [|d done IH].
  - simpl. destruct (hex_of_bytes rest ++ tail)%string; reflexivity.
  - cbn [length app hex_of_bytes].
    replace (2 * S (length done))%nat with (S (S (2 * length done))) by lia.
    exact IH.
Qed.

Lemma run_u8_set_outside (h : heap) (a : Uint8Array) (i : nat)
    (v : Js.number) :
  (u8_length a <= i)%nat ->
  run (u8_set a (Z.of_nat i) v) h = (Ok tt, h).
Proof.
  intros Hi. unfold u8_set. rewrite run_get_heap.
  destruct (Z.ltb_spec (Z.of_nat i) (Z.of_nat (u8_length a))); [lia|].
  rewrite andb_false_r. reflexivity.
Qed.

(** The loop on digits followed by a tail and run [k] more times than there
    are bytes: the bytes are stored and the [k] other iterations remain. *)
Lemma run_bigIntToBuffer_loop_prefix (h : heap) (tail : string) (k : nat)
    (rest : list byte) :
  forall (done buf : list byte),
    length buf = (length done + length rest)%nat ->
    run (bigIntToBuffer_loop (length rest + k)
           (hex_of_bytes (done ++ rest) ++ tail)
           (mkUint8Array (length h) 0 (length buf))
           (length done) (2 * length done))
        (h ++ [buf])
    = run (bigIntToBuffer_loop k
             (hex_of_bytes (done ++ rest) ++ tail)
             (mkUint8Array (length h) 0 (length buf))
             (length done + length rest) (2 * (length done + length rest)))
          (h ++ [take (length done) buf ++ rest
                 ++ drop (length done + length rest) buf]).
Proof.
  induction rest as [|b rest IH]; intros done buf Hlen.
  - cbn [length Nat.add]. rewrite app_nil_l, !Nat.add_0_r, take_drop.
    reflexivity.
  - cbn [length Nat.add bigIntToBuffer_loop]. cbn [length] in Hlen.
    rewrite run_bind, slice2_hex_of_bytes_tail, parseInt16_hex_pair.
    rewrite run_u8_set_fresh, byte_of_byte_val by lia.
    specialize (IH (done ++ [b]) (<[length done := b]> buf)).
    rewrite <- app_assoc, length_app, length_insert in IH.
    cbn [length app] in IH.
    replace (2 * (length done + 1))%nat with (2 * length done + 2)%nat in IH
      by lia.
    rewrite IH by lia.
    replace (length done + 1 + length rest)%nat
      with (length done + S (length rest))%nat by lia.
    do 3 f_equal.
    replace (length done + 1)%nat with (S (length done)) by lia.
    rewrite (take_S_r _ _ b) by (apply list_lookup_insert_eq; lia).
    rewrite take_insert_ge by lia.
    rewrite drop_insert_lt by lia.
    rewrite <- app_assoc. reflexivity.
Qed.

(** The digits of [v], two per byte of [raw_bytes k v], last byte first. *)
Lemma fixed_hex_raw_bytes (k : nat) (v : Z) :
  0 <= v < 256 ^ Z.of_nat k ->
  fixed_hex (2 * k) v = hex_of_bytes (rev (raw_bytes k v)).
Proof.
  intros Hv.
  rewrite <- fixed_hex_raw_value, length_raw_bytes, raw_value_raw_bytes.
  rewrite Z.mod_small by assumption. reflexivity.
Qed.

(** X25: [bigIntToBuffer] writes the most significant byte first.  A value
    below [2^64] gives eight bytes; a larger value whose hexadecimal digits
    are an even number [2 * k] gives [k] bytes, with no truncation.  In
    both cases the bytes are those of the value. *)
Theorem bigIntToBuffer_big_endian (v : Z) (k : nat) (h : heap) :
  (k = 8%nat /\ 0 <= v < 256 ^ 8) \/
  ((8 < k)%nat /\ 16 ^ (2 * Z.of_nat k - 1) <= v < 256 ^ Z.of_nat k) ->
  run (bigIntToBuffer v) h
    = (Ok (mkUint8Array (length h) 0 k), h ++ [rev (raw_bytes k v)]) /\
  big_endian_value (rev (raw_bytes k v)) 0 = v.
Proof.
  intros Hcase.
  assert (Hpow : 0 < 16 ^ (2 * Z.of_nat k - 1))
    by (apply Z.pow_pos_nonneg; lia).
  assert (Hv : 0 <= v < 256 ^ Z.of_nat k)
    by (destruct Hcase as [[-> Hv] | [_ Hv]]; [exact Hv | lia]).
  assert (Hhex : padStart 16 "0" (BigInt_toString16 v) = fixed_hex (2 * k) v).
  { destruct Hcase as [[-> H8] | [Hk Hbig]].
    - apply padStart_toString16. exact H8.
    - rewrite (BigInt_toString16_exact v (2 * k)).
      + apply padStart_long. rewrite length_fixed_hex. lia.
      + lia.
      + rewrite <- pow_256_16.
        replace (Z.of_nat (2 * k) - 1) with (2 * Z.of_nat k - 1) by lia.
        exact Hbig. }
  split.
  - unfold bigIntToBuffer. rewrite Hhex, fixed_hex_raw_bytes by assumption.
    set (bs := rev (raw_bytes k v)).
    assert (Hbs : length bs = k)
      by (unfold bs; rewrite length_rev; apply length_raw_bytes).
    rewrite length_hex_of_bytes, Hbs.
    replace (2 * k / 2)%nat with k
      by (rewrite Nat.mul_comm, Nat.div_mul; lia).
    replace ((2 * k + 1) / 2)%nat with k
      by (rewrite Nat.mul_comm, Nat.div_add_l; simpl; lia).
    rewrite run_bind, run_new_Uint8Array, Nat2Z.id by lia.
    assert (Hloop :
              run (bigIntToBuffer_loop k (hex_of_bytes bs)
                     (mkUint8Array (length h) 0 k) 0 0)
                  (h ++ [replicate k x00])
              = (Ok tt, h ++ [bs])).
    { pose proof (run_bigIntToBuffer_loop h bs [] (replicate k x00)) as L.
      rewrite Hbs, length_replicate in L.
      etransitivity; [exact (L eq_refl)|].
      cbn [length take app Nat.add].
      rewrite drop_ge by (rewrite length_replicate; lia).
      rewrite app_nil_r. reflexivity. }
    rewrite run_bind, Hloop. reflexivity.
  - rewrite big_endian_value_rev, raw_value_raw_bytes.
    apply Z.mod_small. assumption.
Qed.

Lemma bigIntToBuffer_big_endian_witness :
  run (bigIntToBuffer (2 ^ 68 + 5)) []
    = (Ok (mkUint8Array (length (@nil (list byte))) 0 9),
       [] ++ [rev (raw_bytes 9 (2 ^ 68 + 5))]) /\
  big_endian_value (rev (raw_bytes 9 (2 ^ 68 + 5))) 0 = 2 ^ 68 + 5.
Proof.
  apply (bigIntToBuffer_big_endian (2 ^ 68 + 5) 9 []).
  right. split; [lia|]. simpl. lia.
Defined.

(** X26: an odd number of digits loses the last one.  [hex.length / 2] is
    then not an integer: the array gets its integer part, the last
    iteration of the loop writes past the end, which does nothing, and the
    bytes are those of the value divided by 16.  The smallest such values,
    from [2^64] to [2^68 - 1], give eight bytes. *)
Theorem bigIntToBuffer_odd_digits (v : Z) (k : nat) (h : heap) :
  (8 <= k)%nat ->
  16 ^ (2 * Z.of_nat k) <= v < 16 ^ (2 * Z.of_nat k + 1) ->
  run (bigIntToBuffer v) h
  = (Ok (mkUint8Array (length h) 0 k), h ++ [rev (raw_bytes k (v / 16))]).
Proof.
  intros Hk Hv.
  assert (Hpow : 0 < 16 ^ (2 * Z.of_nat k)) by (apply Z.pow_pos_nonneg; lia).
  assert (Hsucc : 16 ^ (2 * Z.of_nat k + 1) = 16 * 16 ^ (2 * Z.of_nat k))
    by (rewrite Z.pow_add_r by lia; change (16 ^ 1) with 16; lia).
  assert (Hq : 0 <= v / 16 < 256 ^ Z.of_nat k).
  { rewrite pow_256_16, Nat2Z.inj_mul. change (Z.of_nat 2) with 2.
    rewrite Hsucc in Hv. Z.div_mod_to_equations; lia. }
  assert (Hhex : padStart 16 "0" (BigInt_toString16 v)
                 = (hex_of_bytes (rev (raw_bytes k (v / 16)))
                    ++ String (hex_digit (v mod 16)) EmptyString)%string).
  { rewrite (BigInt_toString16_exact v (S (2 * k))).
    - rewrite padStart_long by (rewrite length_fixed_hex; lia).
      cbn [fixed_hex]. rewrite fixed_hex_raw_bytes by assumption.
      reflexivity.
    - lia.
    - replace (Z.of_nat (S (2 * k)) - 1) with (2 * Z.of_nat k) by lia.
      replace (Z.of_nat (S (2 * k))) with (2 * Z.of_nat k + 1) by lia.
      exact Hv. }
  unfold bigIntToBuffer. rewrite Hhex.
  set (bs := rev (raw_bytes k (v / 16))).
  set (tail := String (hex_digit (v mod 16)) EmptyString).
  assert (Hbs : length bs = k)
    by (unfold bs; rewrite length_rev; apply length_raw_bytes).
  rewrite string_length_app, length_hex_of_bytes, Hbs.
  change (String.length tail) with 1%nat.
  replace ((2 * k + 1) / 2)%nat with k
    by (rewrite Nat.mul_comm, Nat.div_add_l; simpl; lia).
  replace ((2 * k + 1 + 1) / 2)%nat with (k + 1)%nat
    by (replace (2 * k + 1 + 1)%nat with ((k + 1) * 2)%nat by lia;
        rewrite Nat.div_mul; lia).
  rewrite run_bind, run_new_Uint8Array, Nat2Z.id by lia.
  assert (Hloop :
            run (bigIntToBuffer_loop (k + 1) (hex_of_bytes bs ++ tail)
                   (mkUint8Array (length h) 0 k) 0 0)
                (h ++ [replicate k x00])
            = (Ok tt, h ++ [bs])).
  { pose proof (run_bigIntToBuffer_loop_prefix h tail 1 bs []
                  (replicate k x00)) as L.
    rewrite Hbs, length_replicate in L.
    etransitivity; [exact (L eq_refl)|].
    cbn [length take app Nat.add bigIntToBuffer_loop].
    rewrite drop_ge by (rewrite length_replicate; lia).
    rewrite app_nil_r, run_bind, run_u8_set_outside by (simpl; lia).
    reflexivity. }
  rewrite run_bind, Hloop. reflexivity.
Qed.

Lemma bigIntToBuffer_odd_digits_witness :
  run (bigIntToBuffer (2 ^ 64 + 258)) []
  = (Ok (mkUint8Array (length (@nil (list byte))) 0 8),
     [] ++ [rev (raw_bytes 8 ((2 ^ 64 + 258) / 16))]).
Proof.
  apply (bigIntToBuffer_odd_digits (2 ^ 64 + 258) 8 []).
  - lia.
  - simpl. lia.
Defined.

(** X27: the other side of the threshold.  For [2^53 <= v < 2^64] the
    limbs [fromUint] returns are not compacted: [compact] hands them back
    as they are. *)
Theorem compact_fromUint_large (v : Z) :
  2 ^ 53 <= v < 2 ^ 64 ->
  compact (fromUint v) = Uint64 [v mod 2 ^ 32; v / 2 ^ 32].
Proof.
  intros Hv.
  change (2 ^ 53) with 9007199254740992 in Hv.
  change (2 ^ 64) with 18446744073709551616 in Hv.
  assert (Hlimbs : fromUint v = [v mod 2 ^ 32; v / 2 ^ 32]).
  { unfold fromUint. rewrite band_all_ones. unfold Js.shru, Js.div_pow2.
    change (Js.ToUint32 (Js.Int 0) mod 32) with 0. rewrite !Z.shiftr_0_r.
    rewrite ToInt32_centered. unfold Js.ToUint32.
    rewrite Z.quot_div_nonneg by lia.
    change 0x100000000 with 4294967296.
    change (2 ^ 32) with 4294967296. change (2 ^ 31) with 2147483648.
    f_equal; [|f_equal]; Z.div_mod_to_equations; lia. }
  rewrite Hlimbs. unfold compact. simpl.
  change (2 ^ 32) with 4294967296.
  destruct (Z.leb_spec 2097152 (v / 4294967296)); [reflexivity|].
  Z.div_mod_to_equations; lia.
Qed.

Lemma compact_fromUint_large_witness :
  compact (fromUint (2 ^ 53)) = Uint64 [2 ^ 53 mod 2 ^ 32; 2 ^ 53 / 2 ^ 32].
Proof. apply (compact_fromUint_large (2 ^ 53)). lia. Defined.
